(** * The chunk insert-plan cache of chunk_cache.c

    A shallow embedding of [src/chunk_cache.c]: the statement synthesizer
    [get_copy_table_insert_sql], the plan-cache callbacks
    ([chunk_insert_plan_cache_create_entry], [..._update_entry],
    [..._pre_invalidate]), the chunk scan with its two scanner callbacks,
    the facade [get_chunk_cache_entry] and the lifecycle functions.

    C state is threaded explicitly.  An [elog(ERROR)] of a callee is an
    error result; what had been written before the error stays written,
    as it does in C. *)

From Stdlib Require Import ZArith Lia Ascii String.
From stdpp Require Import base option list gmap strings pretty.

Local Open Scope string_scope.
Local Open Scope Z_scope.

(** ** Data of the headers

    The struct declarations of catalog.h, partitioning.h,
    hypertable_cache.h and metadata_queries.h are not part of the file;
    the records below carry the fields chunk_cache.c reads, under the
    names it reads them by. *)

(** [partfunc] of a [PartitioningInfo]. *)
Record PartitioningFunc := {
  schema : string;
  name : string;
  modulos : Z;
}.

Record PartitioningInfo := {
  column : string;
  partfunc : PartitioningFunc;
}.

Record epoch_and_partitions_set := {
  num_partitions : Z;
  partitioning : PartitioningInfo;
}.

Record Partition := {
  part_id : Z;
  keyspace_start : Z;
  keyspace_end : Z;
}.

Record hypertable_cache_entry := {
  hci_id : Z;
  time_column_name : string;
  time_column_type : Z;
}.

(** One row of a [crn_set]: a destination table of a chunk. *)
Record crn_row := {
  schema_name : string;
  table_name : string;
}.

Record chunk_row := {
  chunk_row_id : Z;
  chunk_row_partition_id : Z;
  chunk_row_start_time : Z;
  chunk_row_end_time : Z;
}.

(** ** Data of chunk_cache.c *)

(** [SPIPlanPtr]: an opaque handle of the plan execution engine. *)
Definition SPIPlanPtr := Z.

Record chunk_insert_plan_htable_entry := {
  chunk_id : Z;
  start_time : Z;
  end_time : Z;
  move_from_copyt_plan : SPIPlanPtr;
}.

Record ChunkCacheQueryCtx := {
  hci : hypertable_cache_entry;
  pe_entry : epoch_and_partitions_set;
  part : Partition;
  ctx_chunk_id : Z;
  chunk_start_time : Z;
  chunk_end_time : Z;
}.

Record chunk_cache_entry := {
  entry_id : Z;
  entry_chunk : chunk_row;
  entry_move_from_copyt_plan : SPIPlanPtr;
}.

(** A heap tuple of the chunk table; the two time columns are nullable. *)
Record chunk_tuple := {
  CHUNK_TBL_COL_ID : Z;
  CHUNK_TBL_COL_PARTITION_ID : Z;
  CHUNK_TBL_COL_STARTTIME : option Z;
  CHUNK_TBL_COL_ENDTIME : option Z;
}.

Record ChunkScanCtx := {
  scan_chunk : option chunk_row;
  scan_partition_id : Z;
  starttime : Z;
  endtime : Z;
  timepoint : Z;
  should_lock : bool;
}.

(** What a scan leaves behind: the callback data, the tuples it fetched
    and the tuples it passed to [tuple_found], both in scan order. *)
Record ScanResult (D : Type) := {
  scan_data : D;
  tuples_fetched : list chunk_tuple;
  tuples_found : list chunk_tuple;
}.
Arguments scan_data {D} _.
Arguments tuples_fetched {D} _.
Arguments tuples_found {D} _.

(** ** What the file calls and does not define

    Macros and functions of PostgreSQL and of the other translation units,
    taken as parameters. [fetch_crn_set] runs a catalog query: [None] is
    its [elog(ERROR)].  [SPI_prepare_ok] says whether the execution engine
    accepts a statement text; [prepare_plan] raises when it does not.
    [new_chunk_extent] is how far the range that the chunk-creation query
    gives to a new chunk of a partition reaches below and above the
    timepoint it is created for; [None] is an open side. *)
Class Externals := {
  OPEN_START_TIME : Z;
  OPEN_END_TIME : Z;
  quote_identifier : string → string;
  internal_time_to_column_literal_sql : Z → Z → string;
  copy_table_name : Z → string;
  fetch_crn_set : Z → option (list crn_row);
  SPI_prepare_ok : string → bool;
  new_chunk_extent : Z → Z → option N * option N;
}.

(** ** Errors, engine calls and state *)

Inductive Error :=
  | MetadataLookupFailure
  | CompileError
  | CacheNotInitialized
  | NullDereference.

(** The calls into the execution engine and the hash-table library, logged
    in the order they are made. *)
Inductive Call :=
  | SPI_prepare (sql : string) (plan : SPIPlanPtr)
  | SPI_freeplan (plan : SPIPlanPtr)
  | hash_create
  | hash_destroy.

Global Instance Call_eq_dec : EqDecision Call.
Proof. solve_decision. Defined.

Global Instance Error_eq_dec : EqDecision Error.
Proof. solve_decision. Defined.

(** The execution engine: the next handle it hands out, and the log. *)
Record Engine := {
  next_plan : SPIPlanPtr;
  calls : list Call;
}.

(** [cache->post_invalidate_hook]: the static initializer stores
    [cache_init] there, [_chunk_cache_fini] stores NULL. *)
Inductive Hook := hook_cache_init.

(** The process: the chunk table in the order of its partition-time index,
    the static [chunk_insert_plan_cache] ([htab] is [None] for NULL), and
    the engine. *)
Record World := {
  chunk_index : list chunk_tuple;
  htab : option (gmap Z chunk_insert_plan_htable_entry);
  post_invalidate_hook : option Hook;
  engine : Engine;
}.

(** State of a cache callback: the entry [ctx->entry] points to, and the
    engine. *)
Record Slot := {
  pe : chunk_insert_plan_htable_entry;
  slot_engine : Engine;
}.

(** ** State and error monad *)

Definition M (S A : Type) : Type := S → (Error + A) * S.

Global Instance M_ret {S} : MRet (M S) := λ A a s, (inr a, s).
Global Instance M_bind {S} : MBind (M S) := λ A B f m s,
  match m s with
  | (inr a, s') => f a s'
  | (inl e, s') => (inl e, s')
  end.

Definition raise {S A} (e : Error) : M S A := λ s, (inl e, s).

(** An assignment to the state. *)
Definition modify {S} (f : S → S) : M S unit := λ s, (inr tt, f s).

(** A pure step that may raise. *)
Definition lift_err {S A} (r : Error + A) : M S A := λ s, (r, s).

(** Engine calls made from a callback, and from the cache itself. *)
Definition in_slot {A} (m : M Engine A) : M Slot A := λ s,
  let '(r, e) := m (slot_engine s) in (r, {| pe := pe s; slot_engine := e |}).

Definition in_world {A} (m : M Engine A) : M World A := λ w,
  let '(r, e) := m (engine w) in
  (r, {| chunk_index := chunk_index w; htab := htab w;
         post_invalidate_hook := post_invalidate_hook w; engine := e |}).

(** Assignments to the fields of [*pe]. *)
Definition set_pe (f : chunk_insert_plan_htable_entry → chunk_insert_plan_htable_entry)
  : M Slot unit :=
  modify (λ s, {| pe := f (pe s); slot_engine := slot_engine s |}).

Definition set_chunk_id (v : Z) (e : chunk_insert_plan_htable_entry) :=
  {| chunk_id := v; start_time := start_time e; end_time := end_time e;
     move_from_copyt_plan := move_from_copyt_plan e |}.
Definition set_start_time (v : Z) (e : chunk_insert_plan_htable_entry) :=
  {| chunk_id := chunk_id e; start_time := v; end_time := end_time e;
     move_from_copyt_plan := move_from_copyt_plan e |}.
Definition set_end_time (v : Z) (e : chunk_insert_plan_htable_entry) :=
  {| chunk_id := chunk_id e; start_time := start_time e; end_time := v;
     move_from_copyt_plan := move_from_copyt_plan e |}.
Definition set_move_from_copyt_plan (v : SPIPlanPtr) (e : chunk_insert_plan_htable_entry) :=
  {| chunk_id := chunk_id e; start_time := start_time e; end_time := end_time e;
     move_from_copyt_plan := v |}.

(** Assignments to the fields of the static cache. *)
Definition set_htab (t : option (gmap Z chunk_insert_plan_htable_entry)) (w : World) :=
  {| chunk_index := chunk_index w; htab := t;
     post_invalidate_hook := post_invalidate_hook w; engine := engine w |}.
Definition set_post_invalidate_hook (h : option Hook) (w : World) :=
  {| chunk_index := chunk_index w; htab := htab w;
     post_invalidate_hook := h; engine := engine w |}.
Definition set_engine (e : Engine) (w : World) :=
  {| chunk_index := chunk_index w; htab := htab w;
     post_invalidate_hook := post_invalidate_hook w; engine := e |}.
Definition set_chunk_index (l : list chunk_tuple) (w : World) :=
  {| chunk_index := l; htab := htab w;
     post_invalidate_hook := post_invalidate_hook w; engine := engine w |}.

(** [return pe;] *)
Definition return_pe : M Slot chunk_insert_plan_htable_entry :=
  λ s, (inr (pe s), s).

(** One more call in the log. *)
Definition log_call (c : Call) : M Engine unit :=
  λ e, (inr tt, {| next_plan := next_plan e; calls := calls e ++ [c] |}).

(** [SPI_freeplan] of PostgreSQL: releases a handle. *)
Definition SPI_freeplan_call (plan : SPIPlanPtr) : M Engine unit :=
  log_call (SPI_freeplan plan).

(** ** Text *)

(** A tab character, and the six of them that start each continuation
    line of the format string of [sql_insert]. *)
Definition TAB : string := String "009"%char EmptyString.
Definition TAB6 : string := TAB +:+ TAB +:+ TAB +:+ TAB +:+ TAB +:+ TAB.

(** [%d] of a C [int]. *)
Definition fmt_d (z : Z) : string := pretty z.

(** [int i; i = i + 1]: kept in 32 bits. *)
Definition wrap32 (z : Z) : Z := (z + 2 ^ 31) mod 2 ^ 32 - 2 ^ 31.

Section Program.
Context `{Externals}.

(** ** Statement synthesizer *)

(** Lines 289-317: [where_clause] after the four steps. *)
Definition where_clause (ctx : ChunkCacheQueryCtx) : string :=
  let where_clause := "WHERE TRUE" in
  let where_clause :=
    if 1 <? num_partitions (pe_entry ctx) then
      where_clause +:+
        (" AND (" +:+ quote_identifier (schema (partfunc (partitioning (pe_entry ctx))))
         +:+ "." +:+ quote_identifier (name (partfunc (partitioning (pe_entry ctx))))
         +:+ "(" +:+ quote_identifier (column (partitioning (pe_entry ctx)))
         +:+ "::TEXT, " +:+ fmt_d (modulos (partfunc (partitioning (pe_entry ctx))))
         +:+ ") BETWEEN " +:+ fmt_d (keyspace_start (part ctx))
         +:+ " AND " +:+ fmt_d (keyspace_end (part ctx)) +:+ ")")
    else where_clause in
  let where_clause :=
    if bool_decide (chunk_start_time ctx ≠ OPEN_START_TIME) then
      where_clause +:+
        (" AND (" +:+ quote_identifier (time_column_name (hci ctx)) +:+ " >= "
         +:+ internal_time_to_column_literal_sql (chunk_start_time ctx)
               (time_column_type (hci ctx)) +:+ ") ")
    else where_clause in
  let where_clause :=
    if bool_decide (chunk_end_time ctx ≠ OPEN_END_TIME) then
      where_clause +:+
        (" AND (" +:+ quote_identifier (time_column_name (hci ctx)) +:+ " <= "
         +:+ internal_time_to_column_literal_sql (chunk_end_time ctx)
               (time_column_type (hci ctx)) +:+ ") ")
    else where_clause in
  where_clause.

(** Lines 319-330: the [foreach] over [crn->tables], with its counter [i]
    and the buffer [insert_clauses]. *)
Fixpoint insert_clauses_loop (tables : list crn_row) (i : Z) (insert_clauses : string)
  : string :=
  match tables with
  | [] => insert_clauses
  | tab :: cells =>
      let i := wrap32 (i + 1) in
      insert_clauses_loop cells i
        (insert_clauses +:+
           ("i_" +:+ fmt_d i +:+ " AS (INSERT INTO "
            +:+ quote_identifier (schema_name tab) +:+ "."
            +:+ quote_identifier (table_name tab) +:+ " SELECT * FROM selected)"))
  end.

(** Lines 334-339: the format of [sql_insert]. *)
Definition sql_insert (copy_table where_clause insert_clauses : string) : string :=
  TAB6 +:+ " WITH selected AS ( DELETE FROM ONLY " +:+ copy_table +:+ " "
  +:+ where_clause +:+ " RETURNING * ), " +:+ TAB6 +:+ " " +:+ insert_clauses
  +:+ " " +:+ TAB6 +:+ " SELECT 1".

Definition get_copy_table_insert_sql (ctx : ChunkCacheQueryCtx) : Error + string :=
  match fetch_crn_set (ctx_chunk_id ctx) with
  | None => inl MetadataLookupFailure
  | Some crn =>
      inr (sql_insert (copy_table_name (hci_id (hci ctx)))
             (where_clause ctx)
             (insert_clauses_loop crn 0 ""))
  end.

(** ** Plan cache callbacks *)

(** Modelled from the spec: prepare_plan (utils.c) is not among the
    sources.  Section 6: "compile(statement_text, parameter_count) ->
    opaque handle"; section 4.3: "fails with CompileError if statement
    compilation fails".  Every successful compilation yields a handle the
    engine has not handed out before. *)
Definition prepare_plan (src : string) (nargs : Z) : M Engine SPIPlanPtr := λ e,
  if SPI_prepare_ok src then
    (inr (next_plan e),
     {| next_plan := next_plan e + 1;
        calls := calls e ++ [SPI_prepare src (next_plan e)] |})
  else (inl CompileError, e).

Definition chunk_insert_plan_cache_get_key (ctx : ChunkCacheQueryCtx) : Z :=
  ctx_chunk_id ctx.

(** Lines 94-108.  The result is [pe], the entry as it is on return. *)
Definition chunk_insert_plan_cache_create_entry (cctx : ChunkCacheQueryCtx)
  : M Slot chunk_insert_plan_htable_entry :=
  insert_sql ← lift_err (get_copy_table_insert_sql cctx);
  set_pe (set_chunk_id (ctx_chunk_id cctx));;
  set_pe (set_start_time (chunk_start_time cctx));;
  set_pe (set_end_time (chunk_end_time cctx));;
  plan ← in_slot (prepare_plan insert_sql 0);
  set_pe (set_move_from_copyt_plan plan);;
  return_pe.

(** Lines 110-126. *)
Definition chunk_insert_plan_cache_update_entry (cctx : ChunkCacheQueryCtx)
  : M Slot chunk_insert_plan_htable_entry := λ s,
  if bool_decide (start_time (pe s) = chunk_start_time cctx) &&
     bool_decide (end_time (pe s) = chunk_end_time cctx)
  then return_pe s
  else
    (insert_sql ← lift_err (get_copy_table_insert_sql cctx);
     in_slot (SPI_freeplan_call (move_from_copyt_plan (pe s)));;
     plan ← in_slot (prepare_plan insert_sql 0);
     set_pe (set_move_from_copyt_plan plan);;
     return_pe) s.

(** [hash_seq_search] walks the table in an order of its own: the order of
    [map_to_list]. *)
Definition hash_seq (t : gmap Z chunk_insert_plan_htable_entry)
  : list chunk_insert_plan_htable_entry :=
  (map_to_list t).*2.

(** The [while] of lines 88-91 over the entries still to come. *)
Fixpoint free_plans (entries : list chunk_insert_plan_htable_entry) : M Engine unit :=
  match entries with
  | [] => mret tt
  | entry :: rest =>
      SPI_freeplan_call (move_from_copyt_plan entry);; free_plans rest
  end.

(** Lines 80-92.  [hash_seq_init] on a NULL table is a crash. *)
Definition chunk_insert_plan_cache_pre_invalidate : M World unit := λ w,
  match htab w with
  | None => (inl NullDereference, w)
  | Some t => in_world (free_plans (hash_seq t)) w
  end.

(** ** The cache framework (cache.c) *)

(** The entry a miss hands to [create_entry]: the key copied in, nothing
    else set. *)
Definition blank_entry (key : Z) : chunk_insert_plan_htable_entry :=
  {| chunk_id := key; start_time := 0; end_time := 0; move_from_copyt_plan := 0 |}.

(** Modelled from the spec: cache_init (cache.c) is not among the sources.
    Section 6: "init must run once before first use to allocate the
    cache's backing storage". *)
Definition cache_init : M World unit := λ w,
  in_world (log_call hash_create) (set_htab (Some ∅) w).

(** [cache->post_invalidate_hook(cache)] when the hook is not NULL. *)
Definition call_post_invalidate_hook : M World unit := λ w,
  match post_invalidate_hook w with
  | Some hook_cache_init => cache_init w
  | None => (inr tt, w)
  end.

(** Modelled from the spec: cache_fetch (cache.c) is not among the
    sources.  Section 4.3: "On key miss: synthesize statement [...],
    compile it, store entry [...], return plan.  On key hit: compare stored
    bounds [...] update the stored bounds and plan in place"; "Failure:
    [...] propagated to caller, entry not stored".  The hit path runs
    [update_entry] on the stored entry itself, so what the callback wrote
    is in the table whether or not it raised; the miss path runs
    [create_entry] on a new entry and stores it when the callback
    returns. *)
Definition cache_fetch (ctx : ChunkCacheQueryCtx)
  : M World chunk_insert_plan_htable_entry := λ w,
  match htab w with
  | None => (inl CacheNotInitialized, w)
  | Some t =>
      let key := chunk_insert_plan_cache_get_key ctx in
      match t !! key with
      | Some stored =>
          let '(r, s) := chunk_insert_plan_cache_update_entry ctx
                           {| pe := stored; slot_engine := engine w |} in
          (r, set_engine (slot_engine s) (set_htab (Some (<[key := pe s]> t)) w))
      | None =>
          let '(r, s) := chunk_insert_plan_cache_create_entry ctx
                           {| pe := blank_entry key; slot_engine := engine w |} in
          match r with
          | inr entry =>
              (inr entry,
               set_engine (slot_engine s) (set_htab (Some (<[key := pe s]> t)) w))
          | inl err => (inl err, set_engine (slot_engine s) w)
          end
      end
  end.

(** Modelled from the spec: cache_invalidate (cache.c) is not among the
    sources.  Section 4.3: "Bulk invalidate: release every compiled plan
    and discard all entries"; section 9: "release all resources, clear
    storage, optionally reinitialize", the first and the last through the
    pre- and post-invalidate hooks of the cache.  The steps are run as
    they are worded, whatever the state of the cache: the pre-invalidate
    hook first, on the table there is. *)
Definition cache_invalidate : M World unit :=
  chunk_insert_plan_cache_pre_invalidate;;
  in_world (log_call hash_destroy);;
  modify (set_htab None);;
  call_post_invalidate_hook.

(** Lines 128-133. *)
Definition invalidate_chunk_cache_callback : M World unit := cache_invalidate.

(** Lines 135-150. *)
Definition get_chunk_insert_plan_cache_entry
    (hci : hypertable_cache_entry) (pe_entry : epoch_and_partitions_set)
    (part : Partition) (chunk_id chunk_start_time chunk_end_time : Z)
  : M World chunk_insert_plan_htable_entry :=
  cache_fetch {| hci := hci; pe_entry := pe_entry; part := part;
                 ctx_chunk_id := chunk_id;
                 chunk_start_time := chunk_start_time;
                 chunk_end_time := chunk_end_time |}.

(** ** Chunk directory *)

(** Lines 152-164. *)
Definition chunk_row_create (id partition_id starttime endtime : Z) : chunk_row :=
  {| chunk_row_id := id; chunk_row_partition_id := partition_id;
     chunk_row_start_time := starttime; chunk_row_end_time := endtime |}.

Definition set_scan_times (st en : Z) (ctx : ChunkScanCtx) : ChunkScanCtx :=
  {| scan_chunk := scan_chunk ctx; scan_partition_id := scan_partition_id ctx;
     starttime := st; endtime := en; timepoint := timepoint ctx;
     should_lock := should_lock ctx |}.

Definition set_scan_chunk (c : chunk_row) (ctx : ChunkScanCtx) : ChunkScanCtx :=
  {| scan_chunk := Some c; scan_partition_id := scan_partition_id ctx;
     starttime := starttime ctx; endtime := endtime ctx; timepoint := timepoint ctx;
     should_lock := should_lock ctx |}.

(** Lines 186-203.  [heap_getattr] of a nullable column is the option;
    the result is the returned flag and [*ctx] after the call. *)
Definition chunk_tuple_timepoint_filter (ti : chunk_tuple) (ctx : ChunkScanCtx)
  : bool * ChunkScanCtx :=
  let starttime_is_null := bool_decide (CHUNK_TBL_COL_STARTTIME ti = None) in
  let ctx := set_scan_times (default OPEN_START_TIME (CHUNK_TBL_COL_STARTTIME ti))
               (endtime ctx) ctx in
  let endtime_is_null := bool_decide (CHUNK_TBL_COL_ENDTIME ti = None) in
  let ctx := set_scan_times (starttime ctx)
               (default OPEN_END_TIME (CHUNK_TBL_COL_ENDTIME ti)) ctx in
  if (starttime_is_null || (starttime ctx <=? timepoint ctx)) &&
     (endtime_is_null || (timepoint ctx <=? endtime ctx))
  then (true, ctx)
  else (false, ctx).

(** Lines 205-216. *)
Definition chunk_tuple_found (ti : chunk_tuple) (ctx : ChunkScanCtx)
  : bool * ChunkScanCtx :=
  let id := CHUNK_TBL_COL_ID ti in
  (false,
   set_scan_chunk (chunk_row_create id (scan_partition_id ctx)
                     (starttime ctx) (endtime ctx)) ctx).

(** The loop of the scanner over the tuples the index still yields. *)
Fixpoint scanner_loop {D} (filter tuple_found : chunk_tuple → D → bool * D)
    (tuples : list chunk_tuple) (data : D) : ScanResult D :=
  match tuples with
  | [] => {| scan_data := data; tuples_fetched := []; tuples_found := [] |}
  | ti :: rest =>
      let '(qualifies, data) := filter ti data in
      if qualifies then
        let '(continue, data) := tuple_found ti data in
        if continue then
          let r := scanner_loop filter tuple_found rest data in
          {| scan_data := scan_data r; tuples_fetched := ti :: tuples_fetched r;
             tuples_found := ti :: tuples_found r |}
        else {| scan_data := data; tuples_fetched := [ti]; tuples_found := [ti] |}
      else
        let r := scanner_loop filter tuple_found rest data in
        {| scan_data := scan_data r; tuples_fetched := ti :: tuples_fetched r;
           tuples_found := tuples_found r |}
  end.

(** Modelled from the spec: scanner_scan (scanner.c) is not among the
    sources.  Section 6: "indexed range scan over chunk records filtering
    by partition id and returning the first chunk whose bounds contain a
    timepoint".  A forward index scan yields the tuples that satisfy the
    scan key in index order; [filter] says whether a tuple qualifies, and
    [tuple_found], called on a qualifying tuple, says whether the scan
    goes on.  Row locks are not modelled. *)
Definition scanner_scan {D} (index : list chunk_tuple) (scankey : chunk_tuple → bool)
    (filter tuple_found : chunk_tuple → D → bool * D) (data : D) : ScanResult D :=
  scanner_loop filter tuple_found (List.filter scankey index) data.

(** Lines 218-253, with what the scan fetched and found. *)
Definition chunk_scan_run (index : list chunk_tuple) (partition_id timepoint : Z)
    (tuplock : bool) : ScanResult ChunkScanCtx :=
  let cctx := {| scan_chunk := None; scan_partition_id := partition_id;
                 starttime := 0; endtime := 0; timepoint := timepoint;
                 should_lock := false |} in
  let scankey := λ ti, bool_decide (CHUNK_TBL_COL_PARTITION_ID ti = partition_id) in
  scanner_scan index scankey chunk_tuple_timepoint_filter chunk_tuple_found cctx.

(** Lines 218-253: [return cctx.chunk]. *)
Definition chunk_scan (index : list chunk_tuple) (partition_id timepoint : Z)
    (tuplock : bool) : option chunk_row :=
  scan_chunk (scan_data (chunk_scan_run index partition_id timepoint tuplock)).

(** The order of the partition-time index: partition id, start time, end
    time, a NULL after every value. *)
Definition null_last_le (a b : option Z) : bool :=
  match a, b with
  | Some x, Some y => x <=? y
  | Some _, None => true
  | None, Some _ => false
  | None, None => true
  end.

Definition index_le (a b : chunk_tuple) : bool :=
  if CHUNK_TBL_COL_PARTITION_ID a <? CHUNK_TBL_COL_PARTITION_ID b then true
  else if CHUNK_TBL_COL_PARTITION_ID b <? CHUNK_TBL_COL_PARTITION_ID a then false
  else if bool_decide (CHUNK_TBL_COL_STARTTIME a = CHUNK_TBL_COL_STARTTIME b)
       then null_last_le (CHUNK_TBL_COL_ENDTIME a) (CHUNK_TBL_COL_ENDTIME b)
       else null_last_le (CHUNK_TBL_COL_STARTTIME a) (CHUNK_TBL_COL_STARTTIME b).

Fixpoint index_insert (ti : chunk_tuple) (index : list chunk_tuple) : list chunk_tuple :=
  match index with
  | [] => [ti]
  | x :: rest => if index_le ti x then ti :: index else x :: index_insert ti rest
  end.

(** An id no chunk has yet. *)
Definition fresh_chunk_id (index : list chunk_tuple) : Z :=
  1 + foldr Z.max 0 (CHUNK_TBL_COL_ID <$> index).

(** Modelled from the spec: the range of a new chunk is chosen in
    metadata_queries.c and the catalog, not among the sources.  Section
    4.1: "create a new chunk record covering at least timepoint": the
    range reaches from [new_chunk_extent] below the timepoint to
    [new_chunk_extent] above it. *)
Definition new_chunk_range (partition_id timepoint : Z) : option Z * option Z :=
  let '(below, above) := new_chunk_extent partition_id timepoint in
  ((λ d, timepoint - Z.of_N d) <$> below, (λ d, timepoint + Z.of_N d) <$> above).

(** Modelled from the spec: chunk_row_insert_new (metadata_queries.c) is
    not among the sources.  Section 4.1: "If none found, create a new chunk
    record covering at least timepoint and return it"; "Side effects: may
    insert a new persistent chunk record".  The range of the new record is
    [new_chunk_range]; the row returned carries an open bound the way the
    scan does. *)
Definition chunk_row_insert_new (partition_id timepoint : Z) (lock : bool)
  : M World chunk_row := λ w,
  let '(st, en) := new_chunk_range partition_id timepoint in
  let ti := {| CHUNK_TBL_COL_ID := fresh_chunk_id (chunk_index w);
               CHUNK_TBL_COL_PARTITION_ID := partition_id;
               CHUNK_TBL_COL_STARTTIME := st;
               CHUNK_TBL_COL_ENDTIME := en |} in
  (inr (chunk_row_create (CHUNK_TBL_COL_ID ti) partition_id
          (default OPEN_START_TIME st) (default OPEN_END_TIME en)),
   set_chunk_index (index_insert ti (chunk_index w)) w).

(** ** Facade *)

(** Lines 263-268: the chunk of the entry. *)
Definition get_chunk_cache_entry_chunk (part : Partition) (timepoint : Z) (lock : bool)
  : M World chunk_row := λ w,
  match chunk_scan (chunk_index w) (part_id part) timepoint lock with
  | Some chunk => (inr chunk, w)
  | None => chunk_row_insert_new (part_id part) timepoint lock w
  end.

(** Lines 255-277. *)
Definition get_chunk_cache_entry (hci : hypertable_cache_entry)
    (pe_entry : epoch_and_partitions_set) (part : Partition) (timepoint : Z)
    (lock : bool) : M World chunk_cache_entry :=
  chunk ← get_chunk_cache_entry_chunk part timepoint lock;
  move_plan ← get_chunk_insert_plan_cache_entry hci pe_entry part
                (chunk_row_id chunk) (chunk_row_start_time chunk)
                (chunk_row_end_time chunk);
  mret {| entry_chunk := chunk; entry_id := chunk_row_id chunk;
          entry_move_from_copyt_plan := move_from_copyt_plan move_plan |}.

(** ** Lifecycle *)

(** Lines 344-349.  [CreateCacheMemoryContext] has no part in the state
    modelled here. *)
Definition _chunk_cache_init : M World unit := cache_init.

(** Lines 351-356. *)
Definition _chunk_cache_fini : M World unit :=
  modify (set_post_invalidate_hook None);;
  cache_invalidate.

End Program.

(** ** The predicate and the insertion steps, as the specification words them *)

(** The four kinds of clause of the predicate, in the order of section 4.2. *)
Inductive Clause :=
  | BaseTrue
  | PartitionRange
  | TimeLowerBound
  | TimeUpperBound.

Global Instance Clause_eq_dec : EqDecision Clause.
Proof. solve_decision. Defined.

Definition all_clauses : list Clause :=
  [BaseTrue; PartitionRange; TimeLowerBound; TimeUpperBound].

Section Specification.
Context `{Externals}.

(** "Always true (base clause)"; "If the partition count for this
    time-series epoch is greater than 1"; "If chunk start time is not
    open"; "If chunk end time is not open". *)
Definition clause_present (ctx : ChunkCacheQueryCtx) (c : Clause) : bool :=
  match c with
  | BaseTrue => true
  | PartitionRange => bool_decide (num_partitions (pe_entry ctx) > 1)
  | TimeLowerBound => bool_decide (chunk_start_time ctx ≠ OPEN_START_TIME)
  | TimeUpperBound => bool_decide (chunk_end_time ctx ≠ OPEN_END_TIME)
  end.

(** The clauses of the predicate of a chunk. *)
Definition spec_predicate (ctx : ChunkCacheQueryCtx) : list Clause :=
  List.filter (clause_present ctx) all_clauses.

(** The text of one clause. *)
Definition clause_text (ctx : ChunkCacheQueryCtx) (c : Clause) : string :=
  match c with
  | BaseTrue => "WHERE TRUE"
  | PartitionRange =>
      " AND (" +:+ quote_identifier (schema (partfunc (partitioning (pe_entry ctx))))
      +:+ "." +:+ quote_identifier (name (partfunc (partitioning (pe_entry ctx))))
      +:+ "(" +:+ quote_identifier (column (partitioning (pe_entry ctx)))
      +:+ "::TEXT, " +:+ fmt_d (modulos (partfunc (partitioning (pe_entry ctx))))
      +:+ ") BETWEEN " +:+ fmt_d (keyspace_start (part ctx))
      +:+ " AND " +:+ fmt_d (keyspace_end (part ctx)) +:+ ")"
  | TimeLowerBound =>
      " AND (" +:+ quote_identifier (time_column_name (hci ctx)) +:+ " >= "
      +:+ internal_time_to_column_literal_sql (chunk_start_time ctx)
            (time_column_type (hci ctx)) +:+ ") "
  | TimeUpperBound =>
      " AND (" +:+ quote_identifier (time_column_name (hci ctx)) +:+ " <= "
      +:+ internal_time_to_column_literal_sql (chunk_end_time ctx)
            (time_column_type (hci ctx)) +:+ ") "
  end.

(** The insertion step of the [k]-th destination table, counted from 1:
    it inserts every row of the staging result set [selected]. *)
Definition insertion_step (k : Z) (tab : crn_row) : string :=
  "i_" +:+ fmt_d k +:+ " AS (INSERT INTO " +:+ quote_identifier (schema_name tab)
  +:+ "." +:+ quote_identifier (table_name tab) +:+ " SELECT * FROM selected)".

(** One step per destination table, in the order of the routing lookup;
    [i] steps came before. *)
Fixpoint insertion_steps_from (i : Z) (tables : list crn_row) : list string :=
  match tables with
  | [] => []
  | tab :: rest => insertion_step (i + 1) tab :: insertion_steps_from (i + 1) rest
  end.

Definition insertion_steps (tables : list crn_row) : list string :=
  insertion_steps_from 0 tables.

(** The staging step: delete the matching rows of the copy table and
    return them as [selected]. *)
Definition staging_step (copy_table predicate : string) : string :=
  "WITH selected AS ( DELETE FROM ONLY " +:+ copy_table +:+ " " +:+ predicate
  +:+ " RETURNING * )".

(** A chunk record as it is returned: its persisted id and bounds, an open
    bound as the constant that stands for it. *)
Definition chunk_row_of_tuple (ti : chunk_tuple) : chunk_row :=
  {| chunk_row_id := CHUNK_TBL_COL_ID ti;
     chunk_row_partition_id := CHUNK_TBL_COL_PARTITION_ID ti;
     chunk_row_start_time := default OPEN_START_TIME (CHUNK_TBL_COL_STARTTIME ti);
     chunk_row_end_time := default OPEN_END_TIME (CHUNK_TBL_COL_ENDTIME ti) |}.

End Specification.

(** Texts one after the other. *)
Definition concat_text (l : list string) : string := foldr String.app "" l.

(** The statement: the staging step, then the insertion steps, then the
    terminal no-op result. *)
Definition statement_text (staging : string) (steps : list string) : string :=
  TAB6 +:+ " " +:+ staging +:+ ", " +:+ TAB6 +:+ " " +:+ concat_text steps
  +:+ " " +:+ TAB6 +:+ " SELECT 1".

(** A null bound is an open bound: minus infinity at the start, plus
    infinity at the end. *)
Definition bounds_contain (ti : chunk_tuple) (timepoint : Z) : Prop :=
  match CHUNK_TBL_COL_STARTTIME ti with None => True | Some st => st ≤ timepoint end ∧
  match CHUNK_TBL_COL_ENDTIME ti with None => True | Some en => timepoint ≤ en end.

Global Instance bounds_contain_dec ti timepoint : Decision (bounds_contain ti timepoint).
Proof. unfold bounds_contain. repeat case_match; apply _. Defined.

(** A handle is valid in a log when the engine has compiled it and it has
    not been released. *)
Definition compiled (plan : SPIPlanPtr) (c : Call) : bool :=
  match c with SPI_prepare _ p => bool_decide (p = plan) | _ => false end.

Definition plan_valid (log : list Call) (plan : SPIPlanPtr) : bool :=
  existsb (compiled plan) log && negb (bool_decide (SPI_freeplan plan ∈ log)).

(** The releases of a log, in order. *)
Definition released (log : list Call) : list SPIPlanPtr :=
  omap (λ c, match c with SPI_freeplan p => Some p | _ => None end) log.

(** ** A small installation to run the code on *)

Definition demo_tables (chunk_id : Z) : option (list crn_row) :=
  if bool_decide (chunk_id = 1) then
    Some [ {| schema_name := "s"; table_name := "A" |};
           {| schema_name := "s"; table_name := "B" |};
           {| schema_name := "s"; table_name := "C" |} ]
  else if bool_decide (chunk_id = 2) then Some []
  else if bool_decide (chunk_id = 3) then None
  else Some [ {| schema_name := "s"; table_name := "D" |} ].

Definition demo_extent (partition_id timepoint : Z) : option N * option N :=
  (Some (Z.to_N (timepoint `mod` 100)), Some (Z.to_N (99 - timepoint `mod` 100))).

(** An engine that accepts every statement. *)
Definition demo : Externals := {|
  OPEN_START_TIME := -1;
  OPEN_END_TIME := 9223372036854775807;
  quote_identifier := λ s, s;
  internal_time_to_column_literal_sql := λ t _, fmt_d t;
  copy_table_name := λ id, "copy_t_" +:+ fmt_d id;
  fetch_crn_set := demo_tables;
  SPI_prepare_ok := λ _, true;
  new_chunk_extent := demo_extent;
|}.

(** The same installation with an engine that rejects every statement. *)
Definition demo_rejecting : Externals := {|
  OPEN_START_TIME := -1;
  OPEN_END_TIME := 9223372036854775807;
  quote_identifier := λ s, s;
  internal_time_to_column_literal_sql := λ t _, fmt_d t;
  copy_table_name := λ id, "copy_t_" +:+ fmt_d id;
  fetch_crn_set := demo_tables;
  SPI_prepare_ok := λ _, false;
  new_chunk_extent := demo_extent;
|}.

Definition demo_hci : hypertable_cache_entry :=
  {| hci_id := 5; time_column_name := "time"; time_column_type := 20 |}.

Definition demo_epoch (n : Z) : epoch_and_partitions_set :=
  {| num_partitions := n;
     partitioning :=
       {| column := "device";
          partfunc := {| schema := "pub"; name := "hash"; modulos := 32768 |} |} |}.

Definition demo_part : Partition :=
  {| part_id := 4; keyspace_start := 0; keyspace_end := 16383 |}.

Definition demo_ctx (n chunk st en : Z) : ChunkCacheQueryCtx :=
  {| hci := demo_hci; pe_entry := demo_epoch n; part := demo_part;
     ctx_chunk_id := chunk; chunk_start_time := st; chunk_end_time := en |}.

(** The statement of chunk 4 (one destination table) for given bounds. *)
Definition demo_sql (st en : Z) : string :=
  match @get_copy_table_insert_sql demo (demo_ctx 1 4 st en) with
  | inr sql => sql
  | inl _ => ""
  end.

(** An engine that has compiled one plan, handle 7, for bounds (10, 20). *)
Definition demo_engine : Engine :=
  {| next_plan := 8; calls := [SPI_prepare (demo_sql 10 20) 7] |}.

Definition demo_entry : chunk_insert_plan_htable_entry :=
  {| chunk_id := 4; start_time := 10; end_time := 20; move_from_copyt_plan := 7 |}.

Definition demo_slot : Slot := {| pe := demo_entry; slot_engine := demo_engine |}.

Definition demo_index : list chunk_tuple :=
  [ {| CHUNK_TBL_COL_ID := 1; CHUNK_TBL_COL_PARTITION_ID := 3;
       CHUNK_TBL_COL_STARTTIME := Some 0; CHUNK_TBL_COL_ENDTIME := Some 99 |};
    {| CHUNK_TBL_COL_ID := 2; CHUNK_TBL_COL_PARTITION_ID := 4;
       CHUNK_TBL_COL_STARTTIME := Some 0; CHUNK_TBL_COL_ENDTIME := Some 9 |};
    {| CHUNK_TBL_COL_ID := 4; CHUNK_TBL_COL_PARTITION_ID := 4;
       CHUNK_TBL_COL_STARTTIME := Some 10; CHUNK_TBL_COL_ENDTIME := Some 20 |};
    {| CHUNK_TBL_COL_ID := 6; CHUNK_TBL_COL_PARTITION_ID := 4;
       CHUNK_TBL_COL_STARTTIME := Some 15; CHUNK_TBL_COL_ENDTIME := None |};
    {| CHUNK_TBL_COL_ID := 9; CHUNK_TBL_COL_PARTITION_ID := 4;
       CHUNK_TBL_COL_STARTTIME := None; CHUNK_TBL_COL_ENDTIME := Some 5 |} ].

Definition demo_world : World :=
  {| chunk_index := demo_index;
     htab := Some {[ 4 := demo_entry ]};
     post_invalidate_hook := Some hook_cache_init;
     engine := demo_engine |}.

(** ** Handles over the life of the cache *)

(** The handle a logged call is about. *)
Definition call_plan (c : Call) : option SPIPlanPtr :=
  match c with
  | SPI_prepare _ plan => Some plan
  | SPI_freeplan plan => Some plan
  | hash_create | hash_destroy => None
  end.

(** Every handle in the log was handed out by the engine, so it is below
    the next one. *)
Definition engine_wf (e : Engine) : Prop :=
  ∀ (c : Call) (plan : SPIPlanPtr),
    c ∈ calls e → call_plan c = Some plan → plan < next_plan e.

(** The table owns the valid handles: the handle of every entry is valid,
    every valid handle is the handle of an entry, and no two entries hold
    the same handle. *)
Definition table_owns_plans (log : list Call)
    (t : gmap Z chunk_insert_plan_htable_entry) : Prop :=
  (∀ k e, t !! k = Some e → plan_valid log (move_from_copyt_plan e) = true)
  ∧ (∀ plan, plan_valid log plan = true →
       ∃ k e, t !! k = Some e ∧ move_from_copyt_plan e = plan)
  ∧ (∀ k1 k2 e1 e2, t !! k1 = Some e1 → t !! k2 = Some e2 →
       move_from_copyt_plan e1 = move_from_copyt_plan e2 → k1 = k2).

(** The state the cache is in between its operations: a well-formed
    engine, no handle released twice, and a table that owns the valid
    handles. *)
Definition cache_ok (w : World) : Prop :=
  engine_wf (engine w)
  ∧ NoDup (released (calls (engine w)))
  ∧ ∃ t, htab w = Some t ∧ table_owns_plans (calls (engine w)) t.

(** A process before [_chunk_cache_init]: no chunk, no table, the hook of
    the static initializer, an engine that has done nothing. *)
Definition initial_world : World :=
  {| chunk_index := [];
     htab := None;
     post_invalidate_hook := Some hook_cache_init;
     engine := {| next_plan := 1; calls := [] |} |}.

(** * Properties *)

(** ** Text *)

Lemma string_app_nil_l (a : string) : "" +:+ a = a.
Proof. reflexivity. Qed.

Lemma string_app_assoc (a b c : string) : (a +:+ b) +:+ c = a +:+ (b +:+ c).
Proof.
  induction a as [|ch a IH]; [reflexivity |].
  change (String ch ((a +:+ b) +:+ c) = String ch (a +:+ (b +:+ c))).
  by rewrite IH.
Qed.

Lemma string_app_nil_r (a : string) : a +:+ "" = a.
Proof.
  induction a as [|ch a IH]; [reflexivity |].
  change (String ch (a +:+ "") = String ch a). by rewrite IH.
Qed.

Lemma concat_text_app (l1 l2 : list string) :
  concat_text (l1 ++ l2) = concat_text l1 +:+ concat_text l2.
Proof.
  induction l1 as [|x l1 IH]; [reflexivity |].
  cbn [app concat_text foldr]. fold (concat_text (l1 ++ l2)). fold (concat_text l1).
  by rewrite IH, string_app_assoc.
Qed.

Lemma wrap32_small (z : Z) : - 2 ^ 31 ≤ z < 2 ^ 31 → wrap32 z = z.
Proof. intros Hz. unfold wrap32. rewrite Z.mod_small; lia. Qed.

Ltac normalize_text :=
  repeat rewrite string_app_assoc; repeat rewrite string_app_nil_r.

Section Synthesizer.
Context `{Externals}.

Lemma sql_insert_statement_text (copy_table predicate : string) (steps : list string) :
  sql_insert copy_table predicate (concat_text steps)
  = statement_text (staging_step copy_table predicate) steps.
Proof. unfold sql_insert, statement_text, staging_step. by normalize_text. Qed.

Lemma where_clause_spec_predicate (ctx : ChunkCacheQueryCtx) :
  where_clause ctx = concat_text (clause_text ctx <$> spec_predicate ctx).
Proof.
  unfold where_clause, spec_predicate, all_clauses, clause_present.
  cbn [List.filter].
  destruct (Z.ltb_spec 1 (num_partitions (pe_entry ctx))) as [Hn | Hn].
  - rewrite (bool_decide_eq_true_2 (num_partitions (pe_entry ctx) > 1)) by lia.
    do 2 case_bool_decide; cbn [fmap list_fmap concat_text foldr clause_text];
      by normalize_text.
  - rewrite (bool_decide_eq_false_2 (num_partitions (pe_entry ctx) > 1)) by lia.
    do 2 case_bool_decide; cbn [fmap list_fmap concat_text foldr clause_text];
      by normalize_text.
Qed.

Lemma length_insertion_steps_from (tables : list crn_row) (i : Z) :
  length (insertion_steps_from i tables) = length tables.
Proof. revert i. induction tables as [|tab tables IH]; intros i; simpl; [done | by rewrite IH]. Qed.

Lemma lookup_insertion_steps_from (tables : list crn_row) (i : Z) (k : nat) (tab : crn_row) :
  tables !! k = Some tab →
  insertion_steps_from i tables !! k = Some (insertion_step (i + Z.of_nat k + 1) tab).
Proof.
  revert i k. induction tables as [|x tables IH]; intros i k Hk; [done |].
  destruct k as [|k]; simpl in *.
  - injection Hk as ->. f_equal. f_equal. lia.
  - rewrite (IH (i + 1) k Hk). f_equal. f_equal. lia.
Qed.

Lemma insert_clauses_loop_steps (tables : list crn_row) (i : Z) (buf : string) :
  0 ≤ i → i + Z.of_nat (length tables) < 2 ^ 31 →
  insert_clauses_loop tables i buf = buf +:+ concat_text (insertion_steps_from i tables).
Proof.
  revert i buf. induction tables as [|tab tables IH]; intros i buf Hi Hlen.
  - simpl. by rewrite string_app_nil_r.
  - cbn [insert_clauses_loop insertion_steps_from concat_text foldr].
    cbn [length] in Hlen.
    rewrite wrap32_small by lia.
    rewrite IH by lia.
    unfold insertion_step, concat_text. by normalize_text.
Qed.

(** C3: the synthesized statement is the staging step over a predicate,
    followed by the insertion steps and the terminal result, and that
    predicate is the text of the clauses of section 4.2 one after the
    other, in their order: the base clause, the partition-range clause
    exactly when the partition count is greater than 1, the lower time
    bound exactly when the start time is not open, the upper time bound
    exactly when the end time is not open.  With both bounds open the
    predicate of the statement is the base clause alone, or the base clause
    and the partition-range clause when there is more than one
    partition. *)
Theorem statement_predicate_clauses_in_order
    (ctx : ChunkCacheQueryCtx) (tables : list crn_row) :
  fetch_crn_set (ctx_chunk_id ctx) = Some tables →
  Z.of_nat (length tables) < 2 ^ 31 →
  get_copy_table_insert_sql ctx
  = inr (statement_text
           (staging_step (copy_table_name (hci_id (hci ctx)))
              (concat_text
                 (clause_text ctx <$> List.filter (clause_present ctx)
                    [BaseTrue; PartitionRange; TimeLowerBound; TimeUpperBound])))
           (insertion_steps tables))
  ∧ (chunk_start_time ctx = OPEN_START_TIME → chunk_end_time ctx = OPEN_END_TIME →
     get_copy_table_insert_sql ctx
     = inr (statement_text
              (staging_step (copy_table_name (hci_id (hci ctx)))
                 (if bool_decide (num_partitions (pe_entry ctx) > 1)
                  then "WHERE TRUE" +:+ clause_text ctx PartitionRange
                  else "WHERE TRUE"))
              (insertion_steps tables))).
Proof.
  intros Hcrn Hlen.
  assert (Hsql : get_copy_table_insert_sql ctx
                 = inr (statement_text
                          (staging_step (copy_table_name (hci_id (hci ctx)))
                             (where_clause ctx))
                          (insertion_steps tables))).
  { unfold get_copy_table_insert_sql. rewrite Hcrn.
    rewrite insert_clauses_loop_steps by lia. rewrite string_app_nil_l.
    by rewrite sql_insert_statement_text. }
  rewrite Hsql. split.
  - by rewrite where_clause_spec_predicate.
  - intros Hst Hen. rewrite where_clause_spec_predicate.
    unfold spec_predicate, all_clauses, clause_present. cbn [List.filter].
    rewrite (bool_decide_eq_false_2 (chunk_start_time ctx ≠ OPEN_START_TIME)) by tauto.
    rewrite (bool_decide_eq_false_2 (chunk_end_time ctx ≠ OPEN_END_TIME)) by tauto.
    case_bool_decide; cbn [fmap list_fmap concat_text foldr clause_text];
      by normalize_text.
Qed.

(** C4: for the destination tables the routing lookup returns, the
    statement is the staging step followed by one insertion step per
    table, in the order of the lookup, the [k]-th of them numbered [k] and
    selecting every row of the staging result set. *)
Theorem insertion_step_per_destination_table
    (ctx : ChunkCacheQueryCtx) (tables : list crn_row) :
  fetch_crn_set (ctx_chunk_id ctx) = Some tables →
  Z.of_nat (length tables) < 2 ^ 31 →
  get_copy_table_insert_sql ctx
  = inr (statement_text
           (staging_step (copy_table_name (hci_id (hci ctx))) (where_clause ctx))
           (insertion_steps tables))
  ∧ length (insertion_steps tables) = length tables
  ∧ ∀ (k : nat) (tab : crn_row), tables !! k = Some tab →
      insertion_steps tables !! k
      = Some ("i_" +:+ fmt_d (Z.of_nat k + 1) +:+ " AS (INSERT INTO "
              +:+ quote_identifier (schema_name tab) +:+ "."
              +:+ quote_identifier (table_name tab) +:+ " SELECT * FROM selected)").
Proof.
  intros Hcrn Hlen. repeat split.
  - unfold get_copy_table_insert_sql. rewrite Hcrn.
    rewrite insert_clauses_loop_steps by lia. rewrite string_app_nil_l.
    by rewrite sql_insert_statement_text.
  - apply length_insertion_steps_from.
  - intros k tab Hk. unfold insertion_steps.
    by rewrite (lookup_insertion_steps_from _ 0 k tab Hk).
Qed.

(** C5: when the routing lookup returns no destination table, the
    statement still has the staging step that deletes the matching rows of
    the copy table and returns them, and it has no insertion step. *)
Theorem empty_destination_set_statement (ctx : ChunkCacheQueryCtx) :
  fetch_crn_set (ctx_chunk_id ctx) = Some [] →
  get_copy_table_insert_sql ctx
  = inr (statement_text
           (staging_step (copy_table_name (hci_id (hci ctx))) (where_clause ctx)) [])
  ∧ insertion_steps [] = []
  ∧ insert_clauses_loop [] 0 "" = "".
Proof.
  intros Hcrn. repeat split.
  unfold get_copy_table_insert_sql. rewrite Hcrn. cbn [insert_clauses_loop].
  by rewrite <- (sql_insert_statement_text _ _ []).
Qed.

End Synthesizer.

Lemma statement_predicate_clauses_in_order_witness :
  @get_copy_table_insert_sql demo (demo_ctx 2 1 (-1) 9223372036854775807)
  = inr "						 WITH selected AS ( DELETE FROM ONLY copy_t_5 WHERE TRUE AND (pub.hash(device::TEXT, 32768) BETWEEN 0 AND 16383) RETURNING * ), 						 i_1 AS (INSERT INTO s.A SELECT * FROM selected)i_2 AS (INSERT INTO s.B SELECT * FROM selected)i_3 AS (INSERT INTO s.C SELECT * FROM selected) 						 SELECT 1".
Proof.
  exact (eq_trans
           (proj2 (@statement_predicate_clauses_in_order demo
                     (demo_ctx 2 1 (-1) 9223372036854775807)
                     [ {| schema_name := "s"; table_name := "A" |};
                       {| schema_name := "s"; table_name := "B" |};
                       {| schema_name := "s"; table_name := "C" |} ]
                     eq_refl eq_refl)
              eq_refl eq_refl)
           eq_refl).
Defined.

Lemma insertion_step_per_destination_table_witness :
  @get_copy_table_insert_sql demo (demo_ctx 1 1 10 20)
  = inr (statement_text
           (@staging_step "copy_t_5" (@where_clause demo (demo_ctx 1 1 10 20)))
           ["i_1 AS (INSERT INTO s.A SELECT * FROM selected)";
            "i_2 AS (INSERT INTO s.B SELECT * FROM selected)";
            "i_3 AS (INSERT INTO s.C SELECT * FROM selected)"]).
Proof.
  exact (proj1 (@insertion_step_per_destination_table demo (demo_ctx 1 1 10 20)
                  [ {| schema_name := "s"; table_name := "A" |};
                    {| schema_name := "s"; table_name := "B" |};
                    {| schema_name := "s"; table_name := "C" |} ]
                  eq_refl eq_refl)).
Defined.

Lemma empty_destination_set_statement_witness :
  @get_copy_table_insert_sql demo (demo_ctx 1 2 10 20)
  = inr (statement_text
           (@staging_step "copy_t_5" "WHERE TRUE AND (time >= 10)  AND (time <= 20) ") []).
Proof.
  exact (proj1 (@empty_destination_set_statement demo (demo_ctx 1 2 10 20) eq_refl)).
Defined.

(** The statement of a chunk with three destination tables, as text. *)
Example three_tables_statement :
  @get_copy_table_insert_sql demo (demo_ctx 1 1 (-1) 9223372036854775807)
  = inr (TAB6 +:+ " WITH selected AS ( DELETE FROM ONLY copy_t_5 WHERE TRUE RETURNING * ), "
         +:+ TAB6 +:+ " i_1 AS (INSERT INTO s.A SELECT * FROM selected)"
         +:+ "i_2 AS (INSERT INTO s.B SELECT * FROM selected)"
         +:+ "i_3 AS (INSERT INTO s.C SELECT * FROM selected) "
         +:+ TAB6 +:+ " SELECT 1").
Proof. reflexivity. Qed.

(** ** Plan cache callbacks *)

Section PlanCache.
Context `{Externals}.

Lemma free_plans_log (entries : list chunk_insert_plan_htable_entry) (e : Engine) :
  free_plans entries e
  = (inr tt,
     {| next_plan := next_plan e;
        calls := calls e ++ (SPI_freeplan ∘ move_from_copyt_plan <$> entries) |}).
Proof.
  revert e. induction entries as [|entry entries IH]; intros e.
  - cbn. rewrite app_nil_r. by destruct e.
  - cbn [free_plans]. unfold mbind, M_bind, SPI_freeplan_call, log_call.
    rewrite IH. cbn. by rewrite <- app_assoc.
Qed.

(** The hit on unchanged bounds. *)
Lemma update_entry_same_bounds (ctx : ChunkCacheQueryCtx) (s : Slot) :
  start_time (pe s) = chunk_start_time ctx →
  end_time (pe s) = chunk_end_time ctx →
  chunk_insert_plan_cache_update_entry ctx s = (inr (pe s), s).
Proof.
  intros Hst Hen. unfold chunk_insert_plan_cache_update_entry.
  by rewrite !bool_decide_eq_true_2.
Qed.

(** The hit on changed bounds, step by step. *)
Lemma update_entry_stale (ctx : ChunkCacheQueryCtx) (s : Slot) :
  (start_time (pe s), end_time (pe s)) ≠ (chunk_start_time ctx, chunk_end_time ctx) →
  chunk_insert_plan_cache_update_entry ctx s
  = match get_copy_table_insert_sql ctx with
    | inl err => (inl err, s)
    | inr insert_sql =>
        let freed := {| next_plan := next_plan (slot_engine s);
                        calls := calls (slot_engine s)
                                 ++ [SPI_freeplan (move_from_copyt_plan (pe s))] |} in
        if SPI_prepare_ok insert_sql then
          let pe' := set_move_from_copyt_plan (next_plan (slot_engine s)) (pe s) in
          (inr pe',
           {| pe := pe';
              slot_engine :=
                {| next_plan := next_plan (slot_engine s) + 1;
                   calls := calls freed
                            ++ [SPI_prepare insert_sql (next_plan (slot_engine s))] |} |})
        else (inl CompileError, {| pe := pe s; slot_engine := freed |})
    end.
Proof.
  intros Hne. unfold chunk_insert_plan_cache_update_entry.
  destruct (bool_decide (start_time (pe s) = chunk_start_time ctx)
            && bool_decide (end_time (pe s) = chunk_end_time ctx)) eqn:Hb.
  { apply andb_true_iff in Hb as [Hst%bool_decide_eq_true Hen%bool_decide_eq_true].
    destruct Hne. by rewrite Hst, Hen. }
  unfold mbind, M_bind, lift_err.
  destruct (get_copy_table_insert_sql ctx) as [err | insert_sql]; [done |].
  unfold in_slot, SPI_freeplan_call, log_call, prepare_plan, set_pe, modify, return_pe.
  cbn. by destruct (SPI_prepare_ok insert_sql).
Qed.

(** The first build, step by step. *)
Lemma create_entry_steps (ctx : ChunkCacheQueryCtx) (s : Slot) :
  chunk_insert_plan_cache_create_entry ctx s
  = match get_copy_table_insert_sql ctx with
    | inl err => (inl err, s)
    | inr insert_sql =>
        let keyed := set_end_time (chunk_end_time ctx)
                       (set_start_time (chunk_start_time ctx)
                          (set_chunk_id (ctx_chunk_id ctx) (pe s))) in
        if SPI_prepare_ok insert_sql then
          let pe' := set_move_from_copyt_plan (next_plan (slot_engine s)) keyed in
          (inr pe',
           {| pe := pe';
              slot_engine :=
                {| next_plan := next_plan (slot_engine s) + 1;
                   calls := calls (slot_engine s)
                            ++ [SPI_prepare insert_sql (next_plan (slot_engine s))] |} |})
        else (inl CompileError, {| pe := keyed; slot_engine := slot_engine s |})
    end.
Proof.
  unfold chunk_insert_plan_cache_create_entry, mbind, M_bind, lift_err.
  destruct (get_copy_table_insert_sql ctx) as [err | insert_sql]; [done |].
  unfold in_slot, prepare_plan, set_pe, modify, return_pe.
  cbn. destruct (SPI_prepare_ok insert_sql); [done |]. by destruct (slot_engine s).
Qed.

Lemma set_engine_same (w : World) : set_engine (engine w) w = w.
Proof. by destruct w. Qed.

Lemma set_htab_same (w : World) (t : gmap Z chunk_insert_plan_htable_entry) :
  htab w = Some t → set_htab (Some t) w = w.
Proof. destruct w; cbn; by intros ->. Qed.

(** A failing first build leaves the engine as it was. *)
Lemma create_entry_failure_engine (ctx : ChunkCacheQueryCtx) (s : Slot) (e : Error) :
  (chunk_insert_plan_cache_create_entry ctx s).1 = inl e →
  slot_engine (chunk_insert_plan_cache_create_entry ctx s).2 = slot_engine s
  ∧ move_from_copyt_plan (pe (chunk_insert_plan_cache_create_entry ctx s).2)
    = move_from_copyt_plan (pe s).
Proof.
  rewrite create_entry_steps.
  destruct (get_copy_table_insert_sql ctx) as [err | insert_sql]; [done |].
  cbn zeta. by destruct (SPI_prepare_ok insert_sql).
Qed.

(** A fetch that hits an entry with the bounds asked for changes nothing. *)
Lemma cache_fetch_hit_same_bounds (ctx : ChunkCacheQueryCtx) (w : World)
    (t : gmap Z chunk_insert_plan_htable_entry) (stored : chunk_insert_plan_htable_entry) :
  htab w = Some t →
  t !! ctx_chunk_id ctx = Some stored →
  start_time stored = chunk_start_time ctx →
  end_time stored = chunk_end_time ctx →
  cache_fetch ctx w = (inr stored, w).
Proof.
  intros Ht Hk Hst Hen. unfold cache_fetch, chunk_insert_plan_cache_get_key.
  rewrite Ht, Hk. rewrite update_entry_same_bounds by done. cbn.
  rewrite insert_id by done. by rewrite set_htab_same, set_engine_same.
Qed.

(** C2: a hit whose bounds are the stored ones returns the stored entry,
    with its handle, and leaves the entry and the engine as they were:
    nothing is compiled, nothing is released.  However often it is
    repeated, the state stays the same and so does the handle returned. *)
Theorem update_entry_same_bounds_returns_stored_plan
    (ctx : ChunkCacheQueryCtx) (s : Slot) (n : nat) :
  start_time (pe s) = chunk_start_time ctx →
  end_time (pe s) = chunk_end_time ctx →
  chunk_insert_plan_cache_update_entry ctx s = (inr (pe s), s)
  ∧ Nat.iter n (λ s', (chunk_insert_plan_cache_update_entry ctx s').2) s = s
  ∧ (chunk_insert_plan_cache_update_entry ctx
       (Nat.iter n (λ s', (chunk_insert_plan_cache_update_entry ctx s').2) s)).1
    = inr (pe s).
Proof.
  intros Hst Hen.
  assert (Hiter : Nat.iter n (λ s', (chunk_insert_plan_cache_update_entry ctx s').2) s = s).
  { induction n as [|n IH]; [done |]. cbn [Nat.iter nat_rect].
    unfold Nat.iter in IH. rewrite IH. by rewrite update_entry_same_bounds. }
  rewrite Hiter. by rewrite update_entry_same_bounds.
Qed.

(** C1, as the code has it: a hit whose bounds differ from the stored ones
    releases the old handle once, synthesizes the statement for the new
    bounds, compiles it, stores the new handle in the entry and returns the
    entry; the stored start and end time stay the old ones and so differ
    from the bounds the plan was compiled for. *)
Theorem update_entry_stale_keeps_stored_bounds
    (ctx : ChunkCacheQueryCtx) (s : Slot) (insert_sql : string) :
  (start_time (pe s), end_time (pe s)) ≠ (chunk_start_time ctx, chunk_end_time ctx) →
  get_copy_table_insert_sql ctx = inr insert_sql →
  SPI_prepare_ok insert_sql = true →
  ∃ pe' : chunk_insert_plan_htable_entry,
    chunk_insert_plan_cache_update_entry ctx s
    = (inr pe',
       {| pe := pe';
          slot_engine :=
            {| next_plan := next_plan (slot_engine s) + 1;
               calls := calls (slot_engine s)
                        ++ [SPI_freeplan (move_from_copyt_plan (pe s));
                            SPI_prepare insert_sql (next_plan (slot_engine s))] |} |})
    ∧ move_from_copyt_plan pe' = next_plan (slot_engine s)
    ∧ chunk_id pe' = chunk_id (pe s)
    ∧ start_time pe' = start_time (pe s)
    ∧ end_time pe' = end_time (pe s)
    ∧ (start_time pe', end_time pe') ≠ (chunk_start_time ctx, chunk_end_time ctx).
Proof.
  intros Hne Hsql Hok.
  exists (set_move_from_copyt_plan (next_plan (slot_engine s)) (pe s)).
  rewrite update_entry_stale by done. rewrite Hsql. cbn zeta. rewrite Hok.
  cbn. by rewrite <- app_assoc.
Qed.

(** C8, as the code has it.  A failing first build stores no entry: the
    fetch leaves the cache and the engine as they were.  A rebuild whose
    statement synthesis fails leaves the entry and the engine as they
    were.  A rebuild whose compilation fails leaves the fields of the
    entry as they were, the handle among them, and has released that
    handle before the compilation was tried. *)
Theorem build_failure_effects
    (ctx : ChunkCacheQueryCtx) (s : Slot) (w : World)
    (t : gmap Z chunk_insert_plan_htable_entry) (e : Error) :
  htab w = Some t →
  (t !! ctx_chunk_id ctx = None → (cache_fetch ctx w).1 = inl e →
   (cache_fetch ctx w).2 = w)
  ∧ ((start_time (pe s), end_time (pe s)) ≠ (chunk_start_time ctx, chunk_end_time ctx) →
     get_copy_table_insert_sql ctx = inl e →
     chunk_insert_plan_cache_update_entry ctx s = (inl e, s))
  ∧ ((start_time (pe s), end_time (pe s)) ≠ (chunk_start_time ctx, chunk_end_time ctx) →
     ∀ insert_sql : string,
       get_copy_table_insert_sql ctx = inr insert_sql →
       SPI_prepare_ok insert_sql = false →
       chunk_insert_plan_cache_update_entry ctx s
       = (inl CompileError,
          {| pe := pe s;
             slot_engine :=
               {| next_plan := next_plan (slot_engine s);
                  calls := calls (slot_engine s)
                           ++ [SPI_freeplan (move_from_copyt_plan (pe s))] |} |})).
Proof.
  intros Ht. repeat split.
  - intros Hk. unfold cache_fetch, chunk_insert_plan_cache_get_key.
    rewrite Ht, Hk.
    pose proof (create_entry_failure_engine ctx
                  {| pe := blank_entry (ctx_chunk_id ctx); slot_engine := engine w |} e)
      as Hfail.
    destruct (chunk_insert_plan_cache_create_entry ctx _) as [[err | entry] s'];
      cbn in *; [| done].
    intros He. destruct (Hfail He) as [-> _]. apply set_engine_same.
  - intros Hne Hsql. rewrite update_entry_stale by done. by rewrite Hsql.
  - intros Hne insert_sql Hsql Hok. rewrite update_entry_stale by done.
    rewrite Hsql. cbn zeta. by rewrite Hok.
Qed.

End PlanCache.

Lemma update_entry_same_bounds_returns_stored_plan_witness :
  @chunk_insert_plan_cache_update_entry demo (demo_ctx 1 4 10 20) demo_slot
  = (inr demo_entry, demo_slot).
Proof.
  exact (proj1 (@update_entry_same_bounds_returns_stored_plan demo
                  (demo_ctx 1 4 10 20) demo_slot 3 eq_refl eq_refl)).
Defined.

(** The entry cached for bounds (10, 20) is asked for with bounds (30, 40):
    handle 7 is released, handle 8 is compiled and stored, and the bounds
    of the entry are still (10, 20). *)
Lemma update_entry_stale_keeps_stored_bounds_witness :
  ∃ pe' : chunk_insert_plan_htable_entry,
    @chunk_insert_plan_cache_update_entry demo (demo_ctx 1 4 30 40) demo_slot
    = (inr pe',
       {| pe := pe';
          slot_engine :=
            {| next_plan := 8 + 1;
               calls := [SPI_prepare (demo_sql 10 20) 7]
                        ++ [SPI_freeplan 7; SPI_prepare (demo_sql 30 40) 8] |} |})
    ∧ move_from_copyt_plan pe' = 8
    ∧ chunk_id pe' = 4
    ∧ start_time pe' = 10
    ∧ end_time pe' = 20
    ∧ (start_time pe', end_time pe') ≠ (30, 40).
Proof.
  refine (@update_entry_stale_keeps_stored_bounds demo (demo_ctx 1 4 30 40) demo_slot
            (demo_sql 30 40) _ eq_refl eq_refl).
  cbn. intros Heq. discriminate Heq.
Defined.

(** After that rebuild the same bounds (30, 40) are asked for again: the
    entry, still at (10, 20), is rebuilt once more; and the old bounds
    (10, 20) get the handle that was compiled for (30, 40). *)
Example stale_bounds_after_rebuild :
  let s1 := (@chunk_insert_plan_cache_update_entry demo (demo_ctx 1 4 30 40) demo_slot).2 in
  let s2 := (@chunk_insert_plan_cache_update_entry demo (demo_ctx 1 4 30 40) s1).2 in
  move_from_copyt_plan (pe s1) = 8
  ∧ move_from_copyt_plan (pe s2) = 9
  ∧ released (calls (slot_engine s2)) = [7; 8]
  ∧ @chunk_insert_plan_cache_update_entry demo (demo_ctx 1 4 10 20) s1 = (inr (pe s1), s1)
  ∧ SPI_prepare (demo_sql 30 40) 8 ∈ calls (slot_engine s1).
Proof.
  cbn zeta. repeat split; try reflexivity. vm_compute. set_solver.
Qed.

(** With an engine that rejects the statement, the rebuild of the entry of
    handle 7 fails; the entry still holds handle 7, which was valid
    before and is released now. *)
Lemma rebuild_compile_failure_releases_stored_plan :
  @chunk_insert_plan_cache_update_entry demo_rejecting (demo_ctx 1 4 30 40) demo_slot
  = (inl CompileError,
     {| pe := demo_entry;
        slot_engine := {| next_plan := 8;
                          calls := [SPI_prepare (demo_sql 10 20) 7; SPI_freeplan 7] |} |})
  ∧ plan_valid [SPI_prepare (demo_sql 10 20) 7] (move_from_copyt_plan demo_entry) = true
  ∧ plan_valid [SPI_prepare (demo_sql 10 20) 7; SPI_freeplan 7]
      (move_from_copyt_plan demo_entry) = false.
Proof. repeat split; vm_compute; reflexivity. Qed.

Lemma build_failure_effects_witness :
  @chunk_insert_plan_cache_update_entry demo_rejecting (demo_ctx 1 4 30 40) demo_slot
  = (inl CompileError,
     {| pe := demo_entry;
        slot_engine := {| next_plan := 8;
                          calls := [SPI_prepare (demo_sql 10 20) 7] ++ [SPI_freeplan 7] |} |})
  ∧ (@cache_fetch demo_rejecting (demo_ctx 1 1 30 40) demo_world).2 = demo_world.
Proof.
  destruct (@build_failure_effects demo_rejecting (demo_ctx 1 4 30 40) demo_slot
              demo_world {[ 4 := demo_entry ]} CompileError eq_refl)
    as (_ & _ & Hcompile).
  destruct (@build_failure_effects demo_rejecting (demo_ctx 1 1 30 40) demo_slot
              demo_world {[ 4 := demo_entry ]} CompileError eq_refl)
    as (Hfirst & _ & _).
  split.
  - refine (Hcompile _ (demo_sql 30 40) eq_refl eq_refl).
    cbn. intros Heq. discriminate Heq.
  - exact (Hfirst eq_refl eq_refl).
Defined.

(** ** The cache: invalidation and shutdown *)

Section Cache.
Context `{Externals}.

Lemma pre_invalidate_log (w : World) (t : gmap Z chunk_insert_plan_htable_entry) :
  htab w = Some t →
  chunk_insert_plan_cache_pre_invalidate w
  = (inr tt,
     set_engine
       {| next_plan := next_plan (engine w);
          calls := calls (engine w)
                   ++ (SPI_freeplan ∘ move_from_copyt_plan <$> hash_seq t) |} w).
Proof.
  intros Ht. unfold chunk_insert_plan_cache_pre_invalidate. rewrite Ht.
  unfold in_world. rewrite free_plans_log. reflexivity.
Qed.

(** The invalidation, step by step. *)
Lemma cache_invalidate_steps (w : World) :
  cache_invalidate w
  = match htab w with
    | None => (inl NullDereference, w)
    | Some t =>
        (inr tt,
         {| chunk_index := chunk_index w;
            htab := match post_invalidate_hook w with
                    | Some hook_cache_init => Some ∅
                    | None => None
                    end;
            post_invalidate_hook := post_invalidate_hook w;
            engine :=
              {| next_plan := next_plan (engine w);
                 calls := calls (engine w)
                          ++ (SPI_freeplan ∘ move_from_copyt_plan <$> hash_seq t)
                          ++ hash_destroy
                             :: match post_invalidate_hook w with
                                | Some hook_cache_init => [hash_create]
                                | None => []
                                end |} |})
    end.
Proof.
  unfold cache_invalidate, mbind, M_bind. destruct (htab w) as [t|] eqn:Ht.
  2: { unfold chunk_insert_plan_cache_pre_invalidate. by rewrite Ht. }
  rewrite (pre_invalidate_log w t Ht).
  unfold in_world, log_call, modify, call_post_invalidate_hook, cache_init, in_world,
    log_call.
  cbn. destruct (post_invalidate_hook w) as [[]|]; cbn;
    by rewrite <- ?app_assoc.
Qed.

Lemma released_frees (log : list Call) (entries : list chunk_insert_plan_htable_entry)
    (rest : list Call) :
  released (log ++ (SPI_freeplan ∘ move_from_copyt_plan <$> entries) ++ rest)
  = (released log ++ (move_from_copyt_plan <$> entries) ++ released rest)%list.
Proof.
  unfold released. rewrite !omap_app. f_equal. f_equal.
  induction entries as [|entry entries IH]; [done |]. cbn. by rewrite IH.
Qed.

(** C7: bulk invalidation releases the handle of every entry of the table,
    one release for each key, then destroys the table, and the
    post-invalidate hook leaves an empty table in its place; a fetch for
    any chunk id after that is a miss: the statement is synthesized and
    compiled, and the entry stored holds the new handle. *)
Theorem invalidate_releases_every_plan_then_discards
    (w : World) (t : gmap Z chunk_insert_plan_htable_entry)
    (ctx : ChunkCacheQueryCtx) (insert_sql : string) :
  htab w = Some t →
  post_invalidate_hook w = Some hook_cache_init →
  get_copy_table_insert_sql ctx = inr insert_sql →
  SPI_prepare_ok insert_sql = true →
  ∃ (w' w'' : World) (entry : chunk_insert_plan_htable_entry),
    invalidate_chunk_cache_callback w = (inr tt, w')
    ∧ calls (engine w')
      = (calls (engine w)
         ++ (SPI_freeplan ∘ move_from_copyt_plan <$> (map_to_list t).*2)
         ++ [hash_destroy; hash_create])%list
    ∧ released (calls (engine w'))
      = (released (calls (engine w))
         ++ (move_from_copyt_plan <$> (map_to_list t).*2))%list
    ∧ NoDup (map_to_list t).*1
    ∧ (∀ k e, (k, e) ∈ map_to_list t ↔ t !! k = Some e)
    ∧ htab w' = Some ∅
    ∧ cache_fetch ctx w' = (inr entry, w'')
    ∧ entry = {| chunk_id := ctx_chunk_id ctx;
                 start_time := chunk_start_time ctx;
                 end_time := chunk_end_time ctx;
                 move_from_copyt_plan := next_plan (engine w) |}
    ∧ calls (engine w'')
      = (calls (engine w') ++ [SPI_prepare insert_sql (next_plan (engine w))])%list
    ∧ htab w'' = Some {[ ctx_chunk_id ctx := entry ]}.
Proof.
  intros Ht Hhook Hsql Hok.
  unfold invalidate_chunk_cache_callback. rewrite cache_invalidate_steps.
  rewrite Ht, Hhook. eexists _, _, _.
  split; [reflexivity |]. cbn [engine calls htab].
  split; [reflexivity |].
  split. { rewrite released_frees. cbn. by rewrite app_nil_r. }
  split; [apply NoDup_fst_map_to_list |].
  split; [intros k e; apply elem_of_map_to_list |].
  split; [reflexivity |].
  unfold cache_fetch, chunk_insert_plan_cache_get_key. cbn [htab engine].
  rewrite lookup_empty, create_entry_steps, Hsql. cbn zeta. rewrite Hok.
  cbn. rewrite insert_empty. repeat split; reflexivity.
Qed.


End Cache.

Lemma invalidate_releases_every_plan_then_discards_witness :
  ∃ w' : World,
    invalidate_chunk_cache_callback demo_world = (inr tt, w')
    ∧ released (calls (engine w')) = [7]
    ∧ htab w' = Some ∅
    ∧ (@cache_fetch demo (demo_ctx 1 4 10 20) w').1
      = inr {| chunk_id := 4; start_time := 10; end_time := 20;
               move_from_copyt_plan := 8 |}.
Proof.
  destruct (@invalidate_releases_every_plan_then_discards demo demo_world
              {[ 4 := demo_entry ]} (demo_ctx 1 4 10 20) (demo_sql 10 20)
              eq_refl eq_refl eq_refl eq_refl)
    as (w' & w'' & entry & Hinv & _ & Hrel & _ & _ & Hempty & Hfetch & Hentry & _).
  exists w'. split; [exact Hinv |]. split; [exact Hrel |]. split; [exact Hempty |].
  rewrite Hfetch, Hentry. reflexivity.
Defined.

(** Shutdown of the demo cache: handle 7 is released, the table is
    destroyed, none is created. *)
Example shutdown_demo :
  (calls (engine (_chunk_cache_fini demo_world).2),
   htab (_chunk_cache_fini demo_world).2,
   post_invalidate_hook (_chunk_cache_fini demo_world).2)
  = ([SPI_prepare (demo_sql 10 20) 7; SPI_freeplan 7; hash_destroy], None, None).
Proof. reflexivity. Qed.



(** ** Chunk directory *)

Section ChunkDirectory.
Context `{Externals}.

Lemma chunk_tuple_timepoint_filter_spec (ti : chunk_tuple) (ctx : ChunkScanCtx) :
  chunk_tuple_timepoint_filter ti ctx
  = (bool_decide (bounds_contain ti (timepoint ctx)),
     set_scan_times (default OPEN_START_TIME (CHUNK_TBL_COL_STARTTIME ti))
       (default OPEN_END_TIME (CHUNK_TBL_COL_ENDTIME ti)) ctx).
Proof.
  unfold chunk_tuple_timepoint_filter.
  destruct ti as [id partition_id [st|] [en|]]; unfold bounds_contain; cbn;
    repeat match goal with
           | |- context [?a <=? ?b] => destruct (Z.leb_spec a b)
           end; cbn;
    first [ reflexivity
          | rewrite bool_decide_eq_true_2 by (split; first [lia | exact I]); reflexivity
          | rewrite bool_decide_eq_false_2 by (intros [? ?]; lia); reflexivity ].
Qed.

(** The scan over the tuples of one partition, with the two callbacks of
    the chunk scan: it reads up to the first tuple whose bounds contain the
    timepoint and makes a chunk row of that tuple. *)
Lemma scanner_loop_first_match (tuples : list chunk_tuple) (ctx : ChunkScanCtx) :
  let r := scanner_loop chunk_tuple_timepoint_filter chunk_tuple_found tuples ctx in
  match list_find (λ ti, bounds_contain ti (timepoint ctx)) tuples with
  | Some (i, ti) =>
      tuples_fetched r = take (S i) tuples
      ∧ tuples_found r = [ti]
      ∧ scan_chunk (scan_data r)
        = Some (chunk_row_create (CHUNK_TBL_COL_ID ti) (scan_partition_id ctx)
                  (default OPEN_START_TIME (CHUNK_TBL_COL_STARTTIME ti))
                  (default OPEN_END_TIME (CHUNK_TBL_COL_ENDTIME ti)))
  | None =>
      tuples_fetched r = tuples
      ∧ tuples_found r = []
      ∧ scan_chunk (scan_data r) = scan_chunk ctx
  end.
Proof.
  revert ctx. induction tuples as [|ti tuples IH]; intros ctx; [done |].
  cbn [scanner_loop list_find]. rewrite chunk_tuple_timepoint_filter_spec.
  destruct (decide (bounds_contain ti (timepoint ctx))) as [Hin | Hout].
  - rewrite bool_decide_eq_true_2 by done. cbn. done.
  - rewrite bool_decide_eq_false_2 by done.
    specialize (IH (set_scan_times (default OPEN_START_TIME (CHUNK_TBL_COL_STARTTIME ti))
                      (default OPEN_END_TIME (CHUNK_TBL_COL_ENDTIME ti)) ctx)).
    cbn [set_scan_times timepoint scan_partition_id scan_chunk] in IH.
    cbn zeta in IH.
    destruct (list_find (λ ti0, bounds_contain ti0 (timepoint ctx)) tuples)
      as [[i t0]|]; cbn.
    + destruct IH as (Hf & Hn & Hc). by rewrite Hf, Hn, Hc.
    + destruct IH as (Hf & Hn & Hc). by rewrite Hf, Hn, Hc.
Qed.

Lemma index_insert_elem (ti : chunk_tuple) (index : list chunk_tuple) :
  ti ∈ index_insert ti index.
Proof.
  induction index as [|x index IH]; cbn; [set_solver |].
  destruct (index_le ti x); set_solver.
Qed.

Lemma partition_tuples_elem (index : list chunk_tuple) (partition_id : Z) (ti : chunk_tuple) :
  ti ∈ List.filter (λ t, bool_decide (CHUNK_TBL_COL_PARTITION_ID t = partition_id)) index
  ↔ ti ∈ index ∧ CHUNK_TBL_COL_PARTITION_ID ti = partition_id.
Proof.
  rewrite !list_elem_of_In, filter_In. by rewrite bool_decide_eq_true.
Qed.

(** The result of [chunk_scan] in one equation. *)
Lemma chunk_scan_first_match (index : list chunk_tuple) (partition_id point : Z)
    (tuplock : bool) :
  chunk_scan index partition_id point tuplock
  = (λ found, chunk_row_of_tuple found.2)
      <$> list_find (λ ti, bounds_contain ti point)
            (List.filter (λ ti, bool_decide (CHUNK_TBL_COL_PARTITION_ID ti = partition_id))
               index).
Proof.
  unfold chunk_scan, chunk_scan_run, scanner_scan.
  pose proof (scanner_loop_first_match
                (List.filter (λ ti, bool_decide (CHUNK_TBL_COL_PARTITION_ID ti = partition_id))
                   index)
                {| scan_chunk := None; scan_partition_id := partition_id;
                   starttime := 0; endtime := 0; timepoint := point;
                   should_lock := false |}) as Hscan.
  cbn zeta in Hscan. cbn [timepoint scan_partition_id scan_chunk] in Hscan.
  destruct (list_find _ _) as [[i ti]|] eqn:Hfind; cbn.
  - destruct Hscan as (_ & _ & ->).
    apply list_find_Some in Hfind as (Hi & _ & _).
    apply list_elem_of_lookup_2, partition_tuples_elem in Hi as [_ Hpart].
    unfold chunk_row_create, chunk_row_of_tuple. by rewrite Hpart.
  - by destruct Hscan as (_ & _ & ->).
Qed.

Lemma index_insert_elem_iff (ti x : chunk_tuple) (index : list chunk_tuple) :
  x ∈ index_insert ti index ↔ x = ti ∨ x ∈ index.
Proof.
  induction index as [|y index IH]; cbn.
  - rewrite list_elem_of_singleton, elem_of_nil. tauto.
  - destruct (index_le ti y).
    + by rewrite elem_of_cons.
    + rewrite !elem_of_cons, IH. tauto.
Qed.




(** C10: the scan is keyed on the partition id alone, runs forward over
    the tuples of the partition in index order and ends at the first one
    whose bounds contain the timepoint, because [chunk_tuple_found] returns
    false: it fetches no tuple after that one, makes a chunk row of that
    one tuple only, and returns it; with no such tuple it reads the whole
    partition and returns NULL. *)
Theorem chunk_scan_stops_at_first_match
    (index : list chunk_tuple) (partition_id point : Z) (tuplock : bool) :
  let of_partition :=
    List.filter (λ ti, bool_decide (CHUNK_TBL_COL_PARTITION_ID ti = partition_id)) index in
  let r := chunk_scan_run index partition_id point tuplock in
  (∀ ti ctx, (chunk_tuple_found ti ctx).1 = false)
  ∧ (length (tuples_found r) ≤ 1)%nat
  ∧ match list_find (λ ti, bounds_contain ti point) of_partition with
    | Some (i, ti) =>
        tuples_fetched r = take (S i) of_partition
        ∧ tuples_found r = [ti]
        ∧ chunk_scan index partition_id point tuplock = Some (chunk_row_of_tuple ti)
    | None =>
        tuples_fetched r = of_partition
        ∧ tuples_found r = []
        ∧ chunk_scan index partition_id point tuplock = None
    end.
Proof.
  cbn zeta. split; [done |].
  unfold chunk_scan, chunk_scan_run, scanner_scan.
  pose proof (scanner_loop_first_match
                (List.filter (λ ti, bool_decide (CHUNK_TBL_COL_PARTITION_ID ti = partition_id))
                   index)
                {| scan_chunk := None; scan_partition_id := partition_id;
                   starttime := 0; endtime := 0; timepoint := point;
                   should_lock := false |}) as Hscan.
  cbn zeta in Hscan. cbn [timepoint scan_partition_id scan_chunk] in Hscan.
  destruct (list_find _ _) as [[i ti]|] eqn:Hfind.
  - destruct Hscan as (Hf & Hn & Hc). rewrite Hf, Hn, Hc.
    apply list_find_Some in Hfind as (Hi & _ & _).
    apply list_elem_of_lookup_2, partition_tuples_elem in Hi as [_ Hpart].
    split; [cbn; lia |]. repeat split.
    unfold chunk_row_create, chunk_row_of_tuple. by rewrite Hpart.
  - destruct Hscan as (Hf & Hn & Hc). rewrite Hf, Hn, Hc.
    split; [cbn; lia |]. done.
Qed.


End ChunkDirectory.

(** In the demo table partition 4 has two chunks whose bounds contain 17,
    ids 4 and 6; the scan returns the first and does not fetch the rest. *)
Example scan_returns_first_of_two :
  @chunk_scan demo demo_index 4 17 true
  = Some {| chunk_row_id := 4; chunk_row_partition_id := 4;
            chunk_row_start_time := 10; chunk_row_end_time := 20 |}
  ∧ length (tuples_fetched (@chunk_scan_run demo demo_index 4 17 true)) = 2%nat.
Proof. split; reflexivity. Qed.


(** * Further properties of the code *)

(** ** Handles in the log *)

Lemma plan_valid_true (log : list Call) (plan : SPIPlanPtr) :
  plan_valid log plan = true
  ↔ (∃ sql, SPI_prepare sql plan ∈ log) ∧ SPI_freeplan plan ∉ log.
Proof.
  unfold plan_valid. rewrite andb_true_iff, negb_true_iff, bool_decide_eq_false.
  rewrite existsb_exists. split.
  - intros [(c & Hin & Hc) Hfree]. split; [| done].
    destruct c as [sql p | | |]; try done. cbn in Hc.
    apply bool_decide_eq_true in Hc as ->. exists sql. by apply list_elem_of_In.
  - intros [(sql & Hin) Hfree]. split; [| done].
    exists (SPI_prepare sql plan). split; [by apply list_elem_of_In |].
    cbn. by apply bool_decide_eq_true.
Qed.

Lemma plan_valid_false (log : list Call) (plan : SPIPlanPtr) :
  plan_valid log plan = false
  ↔ ¬ ((∃ sql, SPI_prepare sql plan ∈ log) ∧ SPI_freeplan plan ∉ log).
Proof. rewrite <- plan_valid_true. by destruct (plan_valid log plan). Qed.

Lemma plan_valid_eq (log1 log2 : list Call) (plan : SPIPlanPtr) :
  (plan_valid log1 plan = true ↔ plan_valid log2 plan = true) →
  plan_valid log1 plan = plan_valid log2 plan.
Proof.
  destruct (plan_valid log1 plan), (plan_valid log2 plan); intros [H1 H2];
    try reflexivity.
  - symmetry. by apply H1.
  - by apply H2.
Qed.

Lemma released_app (l1 l2 : list Call) :
  released (l1 ++ l2) = (released l1 ++ released l2)%list.
Proof. unfold released. apply omap_app. Qed.

Lemma released_elem (log : list Call) (plan : SPIPlanPtr) :
  plan ∈ released log ↔ SPI_freeplan plan ∈ log.
Proof.
  unfold released. rewrite list_elem_of_omap. split.
  - intros (c & Hin & Hc). destruct c; try done. by injection Hc as ->.
  - intros Hin. by exists (SPI_freeplan plan).
Qed.

Lemma elem_of_snoc_ne (l : list Call) (c c' : Call) :
  c ≠ c' → c ∈ (l ++ [c'])%list ↔ c ∈ l.
Proof.
  intros Hne. rewrite elem_of_app, list_elem_of_singleton. tauto.
Qed.

Lemma engine_wf_not_logged (e : Engine) (c : Call) :
  engine_wf e → call_plan c = Some (next_plan e) → c ∉ calls e.
Proof. intros Hwf Hc Hin. specialize (Hwf c _ Hin Hc). lia. Qed.

(** Compiling a statement: the new handle becomes valid, it was not
    before, and no other handle changes. *)
Lemma prepare_plan_valid (e : Engine) (sql : string) :
  engine_wf e →
  let e' := {| next_plan := next_plan e + 1;
               calls := calls e ++ [SPI_prepare sql (next_plan e)] |} in
  engine_wf e'
  ∧ plan_valid (calls e') (next_plan e) = true
  ∧ plan_valid (calls e) (next_plan e) = false
  ∧ ∀ plan, plan ≠ next_plan e → plan_valid (calls e') plan = plan_valid (calls e) plan.
Proof.
  intros Hwf e'. subst e'. cbn [calls next_plan]. repeat split.
  - intros c plan Hin Hc. cbn [calls next_plan] in *.
    apply elem_of_app in Hin as [Hin | Hin].
    + specialize (Hwf c plan Hin Hc). lia.
    + apply list_elem_of_singleton in Hin as ->. injection Hc as <-. lia.
  - apply plan_valid_true. split.
    + exists sql. apply elem_of_app. right. by apply list_elem_of_singleton.
    + rewrite elem_of_snoc_ne by done.
      by apply (engine_wf_not_logged e (SPI_freeplan (next_plan e)) Hwf).
  - apply plan_valid_false. intros [(sql' & Hin) _].
    by apply (engine_wf_not_logged e (SPI_prepare sql' (next_plan e)) Hwf).
  - intros plan Hne. apply plan_valid_eq. rewrite !plan_valid_true.
    rewrite (elem_of_snoc_ne _ (SPI_freeplan plan)) by done.
    split; intros [(sql' & Hin) Hfree]; (split; [exists sql' | done]).
    + by rewrite elem_of_snoc_ne in Hin by congruence.
    + by rewrite elem_of_snoc_ne by congruence.
Qed.

(** Releasing a handle: it is not valid after, and no other handle
    changes. *)
Lemma freeplan_valid (e : Engine) (old : SPIPlanPtr) :
  engine_wf e → old < next_plan e →
  let e' := {| next_plan := next_plan e;
               calls := calls e ++ [SPI_freeplan old] |} in
  engine_wf e'
  ∧ plan_valid (calls e') old = false
  ∧ ∀ plan, plan ≠ old → plan_valid (calls e') plan = plan_valid (calls e) plan.
Proof.
  intros Hwf Hold e'. subst e'. cbn [calls next_plan]. repeat split.
  - intros c plan Hin Hc. cbn [calls next_plan] in *.
    apply elem_of_app in Hin as [Hin | Hin].
    + by apply (Hwf c plan).
    + apply list_elem_of_singleton in Hin as ->. by injection Hc as <-.
  - apply plan_valid_false. intros [_ Hfree]. apply Hfree.
    apply elem_of_app. right. by apply list_elem_of_singleton.
  - intros plan Hne. apply plan_valid_eq. rewrite !plan_valid_true.
    rewrite (elem_of_snoc_ne _ (SPI_freeplan plan)) by congruence.
    split; intros [(sql' & Hin) Hfree]; (split; [exists sql' | done]).
    + by rewrite elem_of_snoc_ne in Hin by done.
    + by rewrite elem_of_snoc_ne by done.
Qed.

Lemma plan_valid_logged (e : Engine) (plan : SPIPlanPtr) :
  engine_wf e → plan_valid (calls e) plan = true → plan < next_plan e.
Proof.
  intros Hwf [(sql & Hin) _]%plan_valid_true. by apply (Hwf (SPI_prepare sql plan)).
Qed.

(** ** The callbacks of the plan cache, over every path *)

Section PlanCacheMore.
Context `{Externals}.

(** X1: whatever path it takes (unchanged bounds, rebuild, failed
    synthesis, failed compilation), [update_entry] never writes the chunk
    id, the start time or the end time of the entry. *)
Theorem update_entry_never_writes_key_or_bounds (ctx : ChunkCacheQueryCtx) (s : Slot) :
  chunk_id (pe (chunk_insert_plan_cache_update_entry ctx s).2) = chunk_id (pe s)
  ∧ start_time (pe (chunk_insert_plan_cache_update_entry ctx s).2) = start_time (pe s)
  ∧ end_time (pe (chunk_insert_plan_cache_update_entry ctx s).2) = end_time (pe s).
Proof.
  destruct (decide ((start_time (pe s), end_time (pe s))
                    = (chunk_start_time ctx, chunk_end_time ctx))) as [Heq | Hne].
  - injection Heq as Hst Hen. by rewrite update_entry_same_bounds.
  - rewrite update_entry_stale by done.
    destruct (get_copy_table_insert_sql ctx) as [err | insert_sql]; [done |].
    cbn zeta. by destruct (SPI_prepare_ok insert_sql).
Qed.

(** X2: a first build that succeeds fills the entry with the chunk id and
    the bounds of the request and a handle; asking for the same request
    right after is a hit that returns that entry and leaves the entry and
    the engine as the build left them. *)
Theorem create_then_update_same_request_is_hit
    (ctx : ChunkCacheQueryCtx) (s : Slot) (insert_sql : string) :
  get_copy_table_insert_sql ctx = inr insert_sql →
  SPI_prepare_ok insert_sql = true →
  ∃ s1 : Slot,
    chunk_insert_plan_cache_create_entry ctx s = (inr (pe s1), s1)
    ∧ pe s1 = {| chunk_id := ctx_chunk_id ctx;
                 start_time := chunk_start_time ctx;
                 end_time := chunk_end_time ctx;
                 move_from_copyt_plan := next_plan (slot_engine s) |}
    ∧ chunk_insert_plan_cache_update_entry ctx s1 = (inr (pe s1), s1).
Proof.
  intros Hsql Hok. rewrite create_entry_steps, Hsql. cbn zeta. rewrite Hok.
  exists {| pe := set_move_from_copyt_plan (next_plan (slot_engine s))
                    (set_end_time (chunk_end_time ctx)
                       (set_start_time (chunk_start_time ctx)
                          (set_chunk_id (ctx_chunk_id ctx) (pe s))));
            slot_engine :=
              {| next_plan := next_plan (slot_engine s) + 1;
                 calls := calls (slot_engine s)
                          ++ [SPI_prepare insert_sql (next_plan (slot_engine s))] |} |}.
  split; [reflexivity |]. split; [reflexivity |].
  by apply update_entry_same_bounds.
Qed.

(** X3: an entry whose stored bounds differ from the bounds asked for is
    rebuilt on every call with those bounds, not only on the first: after
    [n] calls the engine has handed out [n] more handles and [n] more
    releases are logged, and the stored bounds are still the old ones. *)
Theorem stale_entry_is_rebuilt_on_every_call
    (ctx : ChunkCacheQueryCtx) (s : Slot) (insert_sql : string) (n : nat) :
  (start_time (pe s), end_time (pe s)) ≠ (chunk_start_time ctx, chunk_end_time ctx) →
  get_copy_table_insert_sql ctx = inr insert_sql →
  SPI_prepare_ok insert_sql = true →
  let s_n := Nat.iter n (λ s', (chunk_insert_plan_cache_update_entry ctx s').2) s in
  next_plan (slot_engine s_n) = next_plan (slot_engine s) + Z.of_nat n
  ∧ length (released (calls (slot_engine s_n)))
    = (length (released (calls (slot_engine s))) + n)%nat
  ∧ (start_time (pe s_n), end_time (pe s_n)) = (start_time (pe s), end_time (pe s))
  ∧ (n ≠ 0%nat →
     move_from_copyt_plan (pe s_n) = next_plan (slot_engine s) + Z.of_nat n - 1).
Proof.
  intros Hne Hsql Hok. cbn zeta. induction n as [|n IH].
  - cbn. repeat split; [lia | lia | done].
  - cbn [Nat.iter nat_rect]. unfold Nat.iter in IH.
    set (s_n := nat_rect _ s _ n) in *.
    destruct IH as (Hnext & Hrel & Hbounds & _).
    rewrite update_entry_stale by (by rewrite Hbounds).
    rewrite Hsql. cbn zeta. rewrite Hok. cbn [snd pe slot_engine next_plan calls].
    rewrite !released_app, !length_app, Hrel, Hnext. cbn.
    injection Hbounds as Hst Hen.
    repeat split; [lia | lia | by rewrite Hst, Hen | lia].
Qed.

(** X4: with a well-formed engine, the handle a successful first build
    stores is valid after the build and was not valid before it, the
    validity of every other handle is unchanged, and the engine stays
    well-formed. *)
Theorem create_entry_stores_fresh_valid_handle
    (ctx : ChunkCacheQueryCtx) (s s' : Slot) (entry : chunk_insert_plan_htable_entry) :
  engine_wf (slot_engine s) →
  chunk_insert_plan_cache_create_entry ctx s = (inr entry, s') →
  entry = pe s'
  ∧ engine_wf (slot_engine s')
  ∧ plan_valid (calls (slot_engine s')) (move_from_copyt_plan entry) = true
  ∧ plan_valid (calls (slot_engine s)) (move_from_copyt_plan entry) = false
  ∧ ∀ plan, plan ≠ move_from_copyt_plan entry →
      plan_valid (calls (slot_engine s')) plan = plan_valid (calls (slot_engine s)) plan.
Proof.
  intros Hwf. rewrite create_entry_steps.
  destruct (get_copy_table_insert_sql ctx) as [err | insert_sql]; [done |].
  cbn zeta. destruct (SPI_prepare_ok insert_sql); [| done].
  intros Heq. injection Heq as <- <-. cbn [pe slot_engine move_from_copyt_plan
    set_move_from_copyt_plan].
  destruct (prepare_plan_valid (slot_engine s) insert_sql Hwf) as (Hwf' & Hnew & Hold & Hrest).
  done.
Qed.

(** X5: with a well-formed engine and a valid stored handle, the handle the
    entry holds after a successful [update_entry] is valid; when it is a
    new one the old one is not valid any more; no other handle changes,
    and the engine stays well-formed. *)
Theorem update_entry_keeps_stored_handle_valid
    (ctx : ChunkCacheQueryCtx) (s s' : Slot) (entry : chunk_insert_plan_htable_entry) :
  engine_wf (slot_engine s) →
  plan_valid (calls (slot_engine s)) (move_from_copyt_plan (pe s)) = true →
  chunk_insert_plan_cache_update_entry ctx s = (inr entry, s') →
  entry = pe s'
  ∧ engine_wf (slot_engine s')
  ∧ plan_valid (calls (slot_engine s')) (move_from_copyt_plan (pe s')) = true
  ∧ (move_from_copyt_plan (pe s') ≠ move_from_copyt_plan (pe s) →
     plan_valid (calls (slot_engine s')) (move_from_copyt_plan (pe s)) = false
     ∧ plan_valid (calls (slot_engine s)) (move_from_copyt_plan (pe s')) = false)
  ∧ ∀ plan, plan ≠ move_from_copyt_plan (pe s) → plan ≠ move_from_copyt_plan (pe s') →
      plan_valid (calls (slot_engine s')) plan = plan_valid (calls (slot_engine s)) plan.
Proof.
  intros Hwf Hvalid.
  destruct (decide ((start_time (pe s), end_time (pe s))
                    = (chunk_start_time ctx, chunk_end_time ctx))) as [Heq | Hne].
  - injection Heq as Hst Hen. rewrite update_entry_same_bounds by done.
    intros Hres. injection Hres as <- <-. done.
  - rewrite update_entry_stale by done.
    destruct (get_copy_table_insert_sql ctx) as [err | insert_sql]; [done |].
    cbn zeta. destruct (SPI_prepare_ok insert_sql); [| done].
    intros Hres. injection Hres as <- <-.
    cbn [pe slot_engine move_from_copyt_plan set_move_from_copyt_plan].
    pose proof (plan_valid_logged _ _ Hwf Hvalid) as Hold.
    destruct (freeplan_valid (slot_engine s) (move_from_copyt_plan (pe s)) Hwf Hold)
      as (Hwf1 & Hgone & Hrest1).
    destruct (prepare_plan_valid _ insert_sql Hwf1) as (Hwf2 & Hnew & Hfresh & Hrest2).
    cbn [next_plan calls] in *.
    split; [done |]. split; [exact Hwf2 |]. split; [exact Hnew |]. split.
    + intros Hdiff. split.
      * rewrite Hrest2 by lia. exact Hgone.
      * destruct (prepare_plan_valid _ insert_sql Hwf) as (_ & _ & Hnot & _).
        exact Hnot.
    + intros plan Hp1 Hp2. rewrite Hrest2 by done. by apply Hrest1.
Qed.

End PlanCacheMore.

(** ** The chunk directory, beyond one lookup *)

Section ChunkDirectoryMore.
Context `{Externals}.

(** X6: a bound stored as the very value of [OPEN_START_TIME] is a bound
    for the scan and an open start for the statement: the filter accepts
    the tuple only for timepoints from that value on, the row returned
    carries the value as its start time, and the predicate synthesized for
    a request with that start time has no lower time clause. *)
Theorem stored_start_equal_to_open_constant_drops_clause
    (ti : chunk_tuple) (sctx : ChunkScanCtx) :
  CHUNK_TBL_COL_STARTTIME ti = Some OPEN_START_TIME →
  (chunk_tuple_timepoint_filter ti sctx).1 = true →
  ∃ row : chunk_row,
    scan_chunk (chunk_tuple_found ti (chunk_tuple_timepoint_filter ti sctx).2).2 = Some row
    ∧ OPEN_START_TIME ≤ timepoint sctx
    ∧ chunk_row_start_time row = OPEN_START_TIME
    ∧ ∀ cctx : ChunkCacheQueryCtx,
        chunk_start_time cctx = chunk_row_start_time row →
        where_clause cctx
        = concat_text (clause_text cctx <$> List.filter (clause_present cctx)
                         [BaseTrue; PartitionRange; TimeUpperBound]).
Proof.
  intros Hst. rewrite chunk_tuple_timepoint_filter_spec. cbn [fst snd].
  intros [Hlow _]%bool_decide_eq_true. rewrite Hst in Hlow.
  eexists. split; [reflexivity |]. split; [exact Hlow |].
  cbn [chunk_row_start_time chunk_row_create set_scan_times starttime].
  rewrite Hst. split; [reflexivity |].
  intros cctx Hc. rewrite where_clause_spec_predicate.
  unfold spec_predicate, all_clauses. cbn [List.filter clause_present].
  by rewrite (bool_decide_eq_false_2 (chunk_start_time cctx ≠ OPEN_START_TIME))
    by (rewrite Hc; tauto).
Qed.


End ChunkDirectoryMore.

(** ** The cache over its life *)

Section CacheLife.
Context `{Externals}.

Lemma update_entry_returns_pe (ctx : ChunkCacheQueryCtx) (s s' : Slot)
    (entry : chunk_insert_plan_htable_entry) :
  chunk_insert_plan_cache_update_entry ctx s = (inr entry, s') → entry = pe s'.
Proof.
  destruct (decide ((start_time (pe s), end_time (pe s))
                    = (chunk_start_time ctx, chunk_end_time ctx))) as [Heq | Hne].
  - injection Heq as Hst Hen. rewrite update_entry_same_bounds by done.
    by intros [= <- <-].
  - rewrite update_entry_stale by done.
    destruct (get_copy_table_insert_sql ctx) as [err | insert_sql]; [done |].
    cbn zeta. destruct (SPI_prepare_ok insert_sql); [| done]. by intros [= <- <-].
Qed.

Lemma create_entry_returns_pe (ctx : ChunkCacheQueryCtx) (s s' : Slot)
    (entry : chunk_insert_plan_htable_entry) :
  chunk_insert_plan_cache_create_entry ctx s = (inr entry, s') → entry = pe s'.
Proof.
  rewrite create_entry_steps.
  destruct (get_copy_table_insert_sql ctx) as [err | insert_sql]; [done |].
  cbn zeta. destruct (SPI_prepare_ok insert_sql); [| done]. by intros [= <- <-].
Qed.

(** What a fetch that returns leaves in the table. *)
Lemma cache_fetch_stored (ctx : ChunkCacheQueryCtx) (w w' : World)
    (entry : chunk_insert_plan_htable_entry) :
  cache_fetch ctx w = (inr entry, w') →
  ∃ t, htab w = Some t
       ∧ htab w' = Some (<[ctx_chunk_id ctx := entry]> t)
       ∧ chunk_index w' = chunk_index w
       ∧ post_invalidate_hook w' = post_invalidate_hook w.
Proof.
  unfold cache_fetch, chunk_insert_plan_cache_get_key.
  destruct (htab w) as [t|] eqn:Ht; [| done].
  destruct (t !! ctx_chunk_id ctx) as [stored|] eqn:Hk.
  - destruct (chunk_insert_plan_cache_update_entry ctx _) as [r s'] eqn:Hup.
    intros [= -> <-]. apply update_entry_returns_pe in Hup as ->.
    by exists t.
  - destruct (chunk_insert_plan_cache_create_entry ctx _) as [[err | e] s'] eqn:Hcr;
      [done |].
    intros [= -> <-]. apply create_entry_returns_pe in Hcr as ->.
    by exists t.
Qed.

Lemma get_chunk_insert_plan_cache_entry_fetch (ctx : ChunkCacheQueryCtx) :
  get_chunk_insert_plan_cache_entry (hci ctx) (pe_entry ctx) (part ctx)
    (ctx_chunk_id ctx) (chunk_start_time ctx) (chunk_end_time ctx)
  = cache_fetch ctx.
Proof. by destruct ctx. Qed.

Lemma released_snoc_prepare (log : list Call) (sql : string) (plan : SPIPlanPtr) :
  released (log ++ [SPI_prepare sql plan]) = released log.
Proof. rewrite released_app. cbn. by rewrite app_nil_r. Qed.

Lemma released_snoc_freeplan (log : list Call) (plan : SPIPlanPtr) :
  released (log ++ [SPI_freeplan plan]) = (released log ++ [plan])%list.
Proof. by rewrite released_app. Qed.

Lemma valid_not_released (log : list Call) (plan : SPIPlanPtr) :
  plan_valid log plan = true → plan ∉ released log.
Proof. intros [_ Hfree]%plan_valid_true. by rewrite released_elem. Qed.

(** A first build adds its entry to a table that owns the valid handles. *)
Lemma table_owns_insert_new (e : Engine) (t : gmap Z chunk_insert_plan_htable_entry)
    (key : Z) (entry : chunk_insert_plan_htable_entry) (sql : string) :
  engine_wf e → table_owns_plans (calls e) t →
  t !! key = None → move_from_copyt_plan entry = next_plan e →
  table_owns_plans (calls e ++ [SPI_prepare sql (next_plan e)]) (<[key := entry]> t).
Proof.
  intros Hwf (Hheld & Howned & Hshare) Hk Hplan.
  destruct (prepare_plan_valid e sql Hwf) as (_ & Hnew & Hfresh & Hrest).
  cbn [calls] in *.
  assert (Hbelow : ∀ k x, t !! k = Some x → move_from_copyt_plan x ≠ next_plan e).
  { intros k x Hx Heq. specialize (Hheld k x Hx). rewrite Heq in Hheld. congruence. }
  split; [| split].
  - intros k x [[<- <-] | [Hne Hx]]%lookup_insert_Some.
    + by rewrite Hplan.
    + rewrite Hrest by eauto. eauto.
  - intros plan Hvalid. destruct (decide (plan = next_plan e)) as [-> | Hne].
    + exists key, entry. by rewrite lookup_insert_eq.
    + rewrite Hrest in Hvalid by done. destruct (Howned plan Hvalid) as (k & x & Hx & Hp).
      exists k, x. rewrite lookup_insert_ne; [done | congruence].
  - intros k1 k2 x1 x2 [[<- <-] | [Hne1 Hx1]]%lookup_insert_Some
      [[<- <-] | [Hne2 Hx2]]%lookup_insert_Some Heq; [done | | | eauto].
    + destruct (Hbelow k2 x2 Hx2). congruence.
    + destruct (Hbelow k1 x1 Hx1). congruence.
Qed.

(** A rebuild replaces the handle of its entry in such a table. *)
Lemma table_owns_replace (e : Engine) (t : gmap Z chunk_insert_plan_htable_entry)
    (key : Z) (stored entry : chunk_insert_plan_htable_entry) (sql : string) :
  engine_wf e → table_owns_plans (calls e) t →
  t !! key = Some stored → move_from_copyt_plan entry = next_plan e →
  table_owns_plans
    ((calls e ++ [SPI_freeplan (move_from_copyt_plan stored)])
     ++ [SPI_prepare sql (next_plan e)])
    (<[key := entry]> t).
Proof.
  intros Hwf (Hheld & Howned & Hshare) Hk Hplan.
  pose proof (plan_valid_logged _ _ Hwf (Hheld key stored Hk)) as Hold.
  destruct (freeplan_valid e (move_from_copyt_plan stored) Hwf Hold)
    as (Hwf1 & Hgone & Hrest1).
  destruct (prepare_plan_valid _ sql Hwf1) as (_ & Hnew & Hfresh & Hrest2).
  cbn [calls next_plan] in *.
  assert (Hother : ∀ k x, k ≠ key → t !! k = Some x →
            move_from_copyt_plan x ≠ next_plan e
            ∧ move_from_copyt_plan x ≠ move_from_copyt_plan stored).
  { intros k x Hne Hx. split.
    - pose proof (plan_valid_logged _ _ Hwf (Hheld k x Hx)). lia.
    - intros Heq. by apply Hne, (Hshare k key x stored). }
  split; [| split].
  - intros k x [[<- <-] | [Hne Hx]]%lookup_insert_Some.
    + by rewrite Hplan.
    + destruct (Hother k x) as [H1 H2]; [done | done |].
      rewrite Hrest2, Hrest1 by done. eauto.
  - intros plan Hvalid. destruct (decide (plan = next_plan e)) as [-> | Hne].
    + exists key, entry. by rewrite lookup_insert_eq.
    + rewrite Hrest2 in Hvalid by done.
      destruct (decide (plan = move_from_copyt_plan stored)) as [-> | Hne'];
        [congruence |].
      rewrite Hrest1 in Hvalid by done.
      destruct (Howned plan Hvalid) as (k & x & Hx & Hp).
      exists k, x. rewrite lookup_insert_ne; [done |].
      intros <-. rewrite Hk in Hx. injection Hx as <-. done.
  - intros k1 k2 x1 x2 [[<- <-] | [Hne1 Hx1]]%lookup_insert_Some
      [[<- <-] | [Hne2 Hx2]]%lookup_insert_Some Heq; [done | | | eauto].
    + destruct (Hother k2 x2) as [H1 _]; [done | done |]. congruence.
    + destruct (Hother k1 x1) as [H1 _]; [done | done |]. congruence.
Qed.

Lemma hash_seq_elem (t : gmap Z chunk_insert_plan_htable_entry)
    (e : chunk_insert_plan_htable_entry) :
  e ∈ hash_seq t ↔ ∃ k, t !! k = Some e.
Proof.
  unfold hash_seq. rewrite list_elem_of_fmap. split.
  - intros ([k x] & -> & Hin). exists k. by apply elem_of_map_to_list.
  - intros (k & Hk). exists (k, e). split; [done | by apply elem_of_map_to_list].
Qed.

Lemma hash_seq_plans_NoDup (log : list Call) (t : gmap Z chunk_insert_plan_htable_entry) :
  table_owns_plans log t → NoDup (move_from_copyt_plan <$> hash_seq t).
Proof.
  intros (_ & _ & Hshare). unfold hash_seq. rewrite <- list_fmap_compose.
  apply NoDup_fmap_2_strong; [| apply NoDup_map_to_list].
  intros [k1 x1] [k2 x2] H1%elem_of_map_to_list H2%elem_of_map_to_list Heq.
  cbn in Heq. assert (k1 = k2) as -> by eauto. congruence.
Qed.

(** Invalidating a cache in its regular state: every handle that was valid
    is released, none is released twice, none is valid after. *)
Lemma cache_invalidate_releases_all (w : World) :
  cache_ok w →
  (cache_invalidate w).1 = inr tt
  ∧ engine_wf (engine (cache_invalidate w).2)
  ∧ NoDup (released (calls (engine (cache_invalidate w).2)))
  ∧ (∀ plan, plan_valid (calls (engine (cache_invalidate w).2)) plan = false)
  ∧ (∀ plan, plan_valid (calls (engine w)) plan = true →
       plan ∈ released (calls (engine (cache_invalidate w).2))).
Proof.
  intros (Hwf & Hnd & t & Ht & Hown). rewrite cache_invalidate_steps, Ht.
  cbn [fst snd engine calls next_plan].
  set (tail := hash_destroy :: match post_invalidate_hook w with
                               | Some hook_cache_init => [hash_create]
                               | None => []
                               end).
  assert (Htail : ∀ c, c ∈ tail → call_plan c = None).
  { intros c. subst tail. destruct (post_invalidate_hook w) as [[]|];
      rewrite ?elem_of_cons, ?elem_of_nil; intros Hc;
      repeat destruct Hc as [-> | Hc]; done. }
  assert (Hreltail : released tail = []).
  { subst tail. by destruct (post_invalidate_hook w) as [[]|]. }
  destruct Hown as (Hheld & Howned & Hshare).
  assert (Hfrees : ∀ c, c ∈ (SPI_freeplan ∘ move_from_copyt_plan <$> hash_seq t) →
            ∃ k e, t !! k = Some e ∧ c = SPI_freeplan (move_from_copyt_plan e)).
  { intros c (e & -> & (k & Hk)%hash_seq_elem)%list_elem_of_fmap. by exists k, e. }
  split; [reflexivity |]. split; [| split; [| split]].
  - intros c plan Hin Hc. cbn [calls next_plan] in *.
    apply elem_of_app in Hin as [Hin | Hin]; [by apply (Hwf c) |].
    apply elem_of_app in Hin as [Hin | Hin].
    + destruct (Hfrees c Hin) as (k & e & Hk & ->). injection Hc as <-.
      apply (plan_valid_logged _ _ Hwf), (Hheld k e Hk).
    + rewrite (Htail c Hin) in Hc. done.
  - rewrite released_frees, Hreltail, app_nil_r. apply NoDup_app.
    split; [done |]. split; [| by apply (hash_seq_plans_NoDup (calls (engine w)))].
    intros plan Hrel (e & -> & (k & Hk)%hash_seq_elem)%list_elem_of_fmap.
    by apply (valid_not_released _ _ (Hheld k e Hk)).
  - intros plan. destruct (plan_valid _ plan) eqn:Hvalid; [exfalso | done].
    apply plan_valid_true in Hvalid as [(sql & Hprep) Hfree].
    assert (Hbefore : plan_valid (calls (engine w)) plan = true).
    { apply plan_valid_true. split.
      - exists sql. apply elem_of_app in Hprep as [Hin | Hin]; [done |].
        apply elem_of_app in Hin as [Hin | Hin].
        + by destruct (Hfrees _ Hin) as (k & e & _ & ?).
        + by pose proof (Htail _ Hin).
      - intros Hin. apply Hfree, elem_of_app. by left. }
    destruct (Howned plan Hbefore) as (k & e & Hk & <-).
    apply Hfree, elem_of_app. right. apply elem_of_app. left.
    apply list_elem_of_fmap. exists e. split; [done |]. apply hash_seq_elem. by exists k.
  - intros plan Hvalid. destruct (Howned plan Hvalid) as (k & e & Hk & <-).
    rewrite released_frees. apply elem_of_app. right. apply elem_of_app. left.
    apply list_elem_of_fmap. exists e. split; [done |]. apply hash_seq_elem. by exists k.
Qed.

(** X8: the hot path of the facade.  When the scan finds the chunk and
    the table holds an entry for its id with the bounds of the row, the
    entry returned carries the row, its id and the stored handle, and the
    whole state is as it was: no record is created, nothing is synthesized,
    compiled or released. *)
Theorem get_chunk_cache_entry_hit_changes_nothing
    (hci0 : hypertable_cache_entry) (pe0 : epoch_and_partitions_set) (part0 : Partition)
    (point : Z) (lock : bool) (w : World) (row : chunk_row)
    (t : gmap Z chunk_insert_plan_htable_entry) (stored : chunk_insert_plan_htable_entry) :
  chunk_scan (chunk_index w) (part_id part0) point lock = Some row →
  htab w = Some t →
  t !! chunk_row_id row = Some stored →
  start_time stored = chunk_row_start_time row →
  end_time stored = chunk_row_end_time row →
  get_chunk_cache_entry hci0 pe0 part0 point lock w
  = (inr {| entry_id := chunk_row_id row; entry_chunk := row;
            entry_move_from_copyt_plan := move_from_copyt_plan stored |}, w).
Proof.
  intros Hscan Ht Hk Hst Hen.
  unfold get_chunk_cache_entry, mbind, M_bind, get_chunk_cache_entry_chunk.
  rewrite Hscan. unfold get_chunk_insert_plan_cache_entry.
  by rewrite (cache_fetch_hit_same_bounds _ w t stored).
Qed.

(** X9: whenever the facade returns an entry, the id of the entry is the
    id of its chunk, the chunk belongs to the partition asked for, and the
    handle of the entry is the one the table holds under that id after the
    call. *)
Theorem get_chunk_cache_entry_agrees_with_table
    (hci0 : hypertable_cache_entry) (pe0 : epoch_and_partitions_set) (part0 : Partition)
    (point : Z) (lock : bool) (w w' : World) (entry : chunk_cache_entry) :
  get_chunk_cache_entry hci0 pe0 part0 point lock w = (inr entry, w') →
  entry_id entry = chunk_row_id (entry_chunk entry)
  ∧ chunk_row_partition_id (entry_chunk entry) = part_id part0
  ∧ ∃ t' stored,
      htab w' = Some t'
      ∧ t' !! entry_id entry = Some stored
      ∧ move_from_copyt_plan stored = entry_move_from_copyt_plan entry.
Proof.
  unfold get_chunk_cache_entry, mbind, M_bind.
  destruct (get_chunk_cache_entry_chunk part0 point lock w) as [[err | chunk] w1] eqn:Hchunk;
    [done |].
  unfold get_chunk_insert_plan_cache_entry.
  destruct (cache_fetch _ w1) as [[err | move_plan] w2] eqn:Hfetch; [done |].
  intros [= <- <-]. cbn [entry_id entry_chunk entry_move_from_copyt_plan].
  split; [done |]. split.
  - unfold get_chunk_cache_entry_chunk in Hchunk. rewrite chunk_scan_first_match in Hchunk.
    destruct (list_find _ _) as [[i ti]|] eqn:Hfind; cbn in Hchunk.
    + injection Hchunk as <- <-.
      apply list_find_Some in Hfind as (Hi & _ & _).
      by apply list_elem_of_lookup_2, partition_tuples_elem in Hi as [_ Hpart].
    + unfold chunk_row_insert_new in Hchunk.
      destruct (new_chunk_range _ _) as [st en]. by injection Hchunk as <- <-.
  - apply cache_fetch_stored in Hfetch as (t & _ & Ht' & _). cbn in Ht'.
    exists (<[chunk_row_id chunk := move_plan]> t), move_plan.
    by rewrite lookup_insert_eq.
Qed.

(** X10: a rebuild whose compilation fails leaves the entry in the table
    with the handle it has just released, and the invalidation that
    follows releases that handle a second time. *)
Theorem failed_rebuild_then_invalidate_releases_twice
    (ctx : ChunkCacheQueryCtx) (w : World) (t : gmap Z chunk_insert_plan_htable_entry)
    (stored : chunk_insert_plan_htable_entry) (insert_sql : string) :
  htab w = Some t →
  t !! ctx_chunk_id ctx = Some stored →
  (start_time stored, end_time stored) ≠ (chunk_start_time ctx, chunk_end_time ctx) →
  get_copy_table_insert_sql ctx = inr insert_sql →
  SPI_prepare_ok insert_sql = false →
  ∃ w1 w2 : World,
    get_chunk_insert_plan_cache_entry (hci ctx) (pe_entry ctx) (part ctx)
      (ctx_chunk_id ctx) (chunk_start_time ctx) (chunk_end_time ctx) w
    = (inl CompileError, w1)
    ∧ htab w1 = Some t
    ∧ invalidate_chunk_cache_callback w1 = (inr tt, w2)
    ∧ released (calls (engine w2))
      = (released (calls (engine w)) ++ [move_from_copyt_plan stored]
         ++ (move_from_copyt_plan <$> hash_seq t))%list
    ∧ move_from_copyt_plan stored ∈ move_from_copyt_plan <$> hash_seq t.
Proof.
  intros Ht Hk Hne Hsql Hok. rewrite get_chunk_insert_plan_cache_entry_fetch.
  unfold cache_fetch, chunk_insert_plan_cache_get_key. rewrite Ht, Hk.
  rewrite update_entry_stale by done. rewrite Hsql. cbn zeta. rewrite Hok.
  cbn [pe slot_engine]. rewrite insert_id by done.
  eexists _, _. split; [reflexivity |]. split; [done |].
  unfold invalidate_chunk_cache_callback. rewrite cache_invalidate_steps.
  cbn [htab set_engine set_htab engine calls next_plan post_invalidate_hook chunk_index].
  split; [reflexivity |]. cbn [engine calls]. split.
  - rewrite released_frees, released_snoc_freeplan, <- app_assoc. cbn [app].
    do 2 f_equal.
    destruct (post_invalidate_hook w) as [[]|]; cbn; by rewrite app_nil_r.
  - apply list_elem_of_fmap. exists stored. split; [done |].
    apply hash_seq_elem. by exists (ctx_chunk_id ctx).
Qed.

(** X11: a fetch that returns keeps the cache in its regular state (no
    handle released twice, the table owning exactly the valid handles),
    and the handle it returns is valid and stored under the chunk id. *)
Theorem fetch_keeps_cache_ok
    (ctx : ChunkCacheQueryCtx) (w w' : World) (entry : chunk_insert_plan_htable_entry) :
  cache_ok w →
  get_chunk_insert_plan_cache_entry (hci ctx) (pe_entry ctx) (part ctx)
    (ctx_chunk_id ctx) (chunk_start_time ctx) (chunk_end_time ctx) w
  = (inr entry, w') →
  cache_ok w'
  ∧ plan_valid (calls (engine w')) (move_from_copyt_plan entry) = true
  ∧ ∃ t', htab w' = Some t' ∧ t' !! ctx_chunk_id ctx = Some entry.
Proof.
  intros (Hwf & Hnd & t & Ht & Hown). rewrite get_chunk_insert_plan_cache_entry_fetch.
  intros Hfetch.
  assert (Hok' : cache_ok w' ∧ ∃ t', htab w' = Some t' ∧ t' !! ctx_chunk_id ctx = Some entry).
  { revert Hfetch. unfold cache_fetch, chunk_insert_plan_cache_get_key. rewrite Ht.
    destruct (t !! ctx_chunk_id ctx) as [stored|] eqn:Hk.
    - destruct (decide ((start_time stored, end_time stored)
                        = (chunk_start_time ctx, chunk_end_time ctx))) as [Heq | Hne].
      + injection Heq as Hst Hen. rewrite update_entry_same_bounds by done.
        cbn [pe slot_engine]. rewrite insert_id by done. intros [= <- <-].
        rewrite set_htab_same, set_engine_same by done.
        split; [| by exists t]. split; [done |]. split; [done |]. by exists t.
      + rewrite update_entry_stale by done.
        destruct (get_copy_table_insert_sql ctx) as [err | insert_sql]; [done |].
        cbn zeta. destruct (SPI_prepare_ok insert_sql); [| done].
        cbn [pe slot_engine next_plan calls]. intros [= <- <-].
        destruct Hown as (Hheld & Howned & Hshare).
        pose proof (plan_valid_logged _ _ Hwf (Hheld _ _ Hk)) as Hold.
        destruct (freeplan_valid _ _ Hwf Hold) as (Hwf1 & _ & _).
        destruct (prepare_plan_valid _ insert_sql Hwf1) as (Hwf2 & _ & _ & _).
        split.
        * split; [exact Hwf2 |]. split.
          { cbn [engine set_engine calls].
            rewrite released_snoc_prepare, released_snoc_freeplan.
            apply NoDup_app. split; [done |]. split; [| apply NoDup_singleton].
            intros plan Hrel ->%list_elem_of_singleton.
            by apply (valid_not_released _ _ (Hheld _ _ Hk)). }
          eexists. split; [reflexivity |]. cbn [engine set_engine calls].
          by apply table_owns_replace.
        * eexists. split; [reflexivity |]. by rewrite lookup_insert_eq.
    - rewrite create_entry_steps.
      destruct (get_copy_table_insert_sql ctx) as [err | insert_sql]; [done |].
      cbn zeta. destruct (SPI_prepare_ok insert_sql); [| done].
      cbn [pe slot_engine next_plan calls]. intros [= <- <-].
      destruct (prepare_plan_valid _ insert_sql Hwf) as (Hwf2 & _ & _ & _).
      split.
      + split; [exact Hwf2 |]. split.
        { cbn [engine set_engine calls]. by rewrite released_snoc_prepare. }
        eexists. split; [reflexivity |]. cbn [engine set_engine calls].
        by apply table_owns_insert_new.
      + eexists. split; [reflexivity |]. by rewrite lookup_insert_eq. }
  destruct Hok' as [Hcache (t' & Ht' & Hk')]. split; [exact Hcache |].
  split; [| by exists t'].
  destruct Hcache as (_ & _ & t'' & Ht'' & (Hheld & _ & _)).
  rewrite Ht' in Ht''. injection Ht'' as <-. by apply (Hheld (ctx_chunk_id ctx)).
Qed.

(** X12: invalidating a cache in its regular state releases every handle
    that was valid, releases none twice and leaves none valid; with the
    hook of the static initializer the cache is in its regular state again,
    with an empty table. *)
Theorem invalidate_leaves_no_valid_handle (w : World) :
  cache_ok w →
  post_invalidate_hook w = Some hook_cache_init →
  ∃ w' : World,
    invalidate_chunk_cache_callback w = (inr tt, w')
    ∧ (∀ plan, plan_valid (calls (engine w')) plan = false)
    ∧ (∀ plan, plan_valid (calls (engine w)) plan = true →
         plan ∈ released (calls (engine w')))
    ∧ NoDup (released (calls (engine w')))
    ∧ htab w' = Some ∅
    ∧ cache_ok w'.
Proof.
  intros Hok Hhook. unfold invalidate_chunk_cache_callback.
  destruct (cache_invalidate_releases_all w Hok) as (Hres & Hwf' & Hnd' & Hnone & Hall).
  destruct (cache_invalidate w) as [r w'] eqn:Hinv. cbn [fst snd] in *. subst r.
  exists w'. split; [done |]. split; [done |]. split; [done |]. split; [done |].
  assert (Hempty : htab w' = Some ∅).
  { rewrite cache_invalidate_steps in Hinv. destruct Hok as (_ & _ & t & Ht & _).
    rewrite Ht, Hhook in Hinv. by injection Hinv as <-. }
  split; [done |]. split; [done |]. split; [done |].
  exists ∅. split; [done |]. split; [| split].
  - intros k e Hk. by rewrite lookup_empty in Hk.
  - intros plan Hvalid. by rewrite Hnone in Hvalid.
  - intros k1 k2 e1 e2 Hk. by rewrite lookup_empty in Hk.
Qed.

(** X13: [_chunk_cache_init] puts a process without table and without
    valid handle into the regular state of the cache; from any regular
    state [_chunk_cache_fini] leaves no table and no valid handle, releases
    no handle twice, and so leaves a process [_chunk_cache_init] can start
    from again. *)
Theorem init_and_shutdown_bracket_the_handles (w0 w : World) :
  (htab w0 = None →
   engine_wf (engine w0) →
   NoDup (released (calls (engine w0))) →
   (∀ plan, plan_valid (calls (engine w0)) plan = false) →
   cache_ok (_chunk_cache_init w0).2)
  ∧ (cache_ok w →
     (_chunk_cache_fini w).1 = inr tt
     ∧ htab (_chunk_cache_fini w).2 = None
     ∧ engine_wf (engine (_chunk_cache_fini w).2)
     ∧ NoDup (released (calls (engine (_chunk_cache_fini w).2)))
     ∧ (∀ plan, plan_valid (calls (engine (_chunk_cache_fini w).2)) plan = false)).
Proof.
  split.
  - intros _ Hwf Hnd Hnone.
    change (cache_ok
              {| chunk_index := chunk_index w0; htab := Some ∅;
                 post_invalidate_hook := post_invalidate_hook w0;
                 engine := {| next_plan := next_plan (engine w0);
                              calls := calls (engine w0) ++ [hash_create] |} |}).
    assert (Hsame : ∀ plan, plan_valid (calls (engine w0) ++ [hash_create]) plan = false).
    { intros plan. rewrite <- (Hnone plan). apply plan_valid_eq.
      rewrite !plan_valid_true.
      rewrite (elem_of_snoc_ne _ (SPI_freeplan plan)) by done.
      split; intros [(sql & Hin) Hfree]; (split; [exists sql | done]).
      - by rewrite elem_of_snoc_ne in Hin by done.
      - by rewrite elem_of_snoc_ne by done. }
    split; [| split].
    + intros c plan Hin Hc. cbn [engine calls next_plan] in *.
      apply elem_of_app in Hin as [Hin | Hin]; [by apply (Hwf c) |].
      apply list_elem_of_singleton in Hin as ->. done.
    + cbn [engine calls]. rewrite released_app. cbn. by rewrite app_nil_r.
    + exists ∅. split; [reflexivity |]. cbn [engine calls]. split; [| split].
      * intros k e Hk. by rewrite lookup_empty in Hk.
      * intros plan Hvalid. by rewrite Hsame in Hvalid.
      * intros k1 k2 e1 e2 Hk. by rewrite lookup_empty in Hk.
  - intros Hok.
    assert (Hok' : cache_ok (set_post_invalidate_hook None w)) by exact Hok.
    assert (Hfini : _chunk_cache_fini w = cache_invalidate (set_post_invalidate_hook None w))
      by reflexivity.
    rewrite Hfini.
    destruct (cache_invalidate_releases_all _ Hok') as (Hres & Hwf' & Hnd' & Hnone & _).
    split; [done |]. split; [| by repeat split].
    rewrite cache_invalidate_steps. destruct Hok as (_ & _ & t & Ht & _).
    cbn [set_post_invalidate_hook htab post_invalidate_hook]. by rewrite Ht.
Qed.

End CacheLife.

(** ** The further properties on the demo installation *)

Lemma demo_slot_stale :
  (start_time (pe demo_slot), end_time (pe demo_slot)) ≠ (30, 40).
Proof. cbn. intros Heq. discriminate Heq. Qed.

Lemma demo_engine_wf : engine_wf demo_engine.
Proof.
  intros c plan Hin Hc. cbn in Hin. apply list_elem_of_singleton in Hin as ->.
  injection Hc as <-. cbn. lia.
Qed.

Lemma demo_world_cache_ok : cache_ok demo_world.
Proof.
  split; [exact demo_engine_wf |]. split; [cbn; apply NoDup_nil_2 |].
  exists {[ 4 := demo_entry ]}. split; [reflexivity |]. split; [| split].
  - intros k e [_ <-]%lookup_singleton_Some. reflexivity.
  - intros plan [(sql & Hin) _]%plan_valid_true. cbn in Hin.
    apply list_elem_of_singleton in Hin. injection Hin as _ ->.
    exists 4, demo_entry. split; [| reflexivity]. by apply lookup_singleton_Some.
  - intros k1 k2 e1 e2 [<- _]%lookup_singleton_Some [<- _]%lookup_singleton_Some _.
    reflexivity.
Qed.

Lemma create_then_update_same_request_is_hit_witness :
  ∃ s1 : Slot,
    @chunk_insert_plan_cache_create_entry demo (demo_ctx 1 4 30 40) demo_slot
    = (inr (pe s1), s1)
    ∧ pe s1 = {| chunk_id := 4; start_time := 30; end_time := 40;
                 move_from_copyt_plan := 8 |}
    ∧ @chunk_insert_plan_cache_update_entry demo (demo_ctx 1 4 30 40) s1
      = (inr (pe s1), s1).
Proof.
  exact (@create_then_update_same_request_is_hit demo (demo_ctx 1 4 30 40) demo_slot
           (demo_sql 30 40) eq_refl eq_refl).
Defined.

Lemma stale_entry_is_rebuilt_on_every_call_witness :
  next_plan (slot_engine
               (Nat.iter 3
                  (λ s', (@chunk_insert_plan_cache_update_entry demo
                            (demo_ctx 1 4 30 40) s').2) demo_slot)) = 11.
Proof.
  exact (proj1 (@stale_entry_is_rebuilt_on_every_call demo (demo_ctx 1 4 30 40) demo_slot
                  (demo_sql 30 40) 3 demo_slot_stale eq_refl eq_refl)).
Defined.

Lemma create_entry_stores_fresh_valid_handle_witness :
  plan_valid
    (calls (slot_engine
              (@chunk_insert_plan_cache_create_entry demo (demo_ctx 1 1 10 20)
                 demo_slot).2)) 8 = true
  ∧ plan_valid (calls (slot_engine demo_slot)) 8 = false.
Proof.
  destruct (@create_entry_stores_fresh_valid_handle demo (demo_ctx 1 1 10 20) demo_slot
              (@chunk_insert_plan_cache_create_entry demo (demo_ctx 1 1 10 20) demo_slot).2
              {| chunk_id := 1; start_time := 10; end_time := 20;
                 move_from_copyt_plan := 8 |}
              demo_engine_wf eq_refl)
    as (_ & _ & Hnew & Hold & _).
  exact (conj Hnew Hold).
Defined.

Lemma update_entry_keeps_stored_handle_valid_witness :
  plan_valid
    (calls (slot_engine
              (@chunk_insert_plan_cache_update_entry demo (demo_ctx 1 4 30 40)
                 demo_slot).2)) 8 = true
  ∧ plan_valid
      (calls (slot_engine
                (@chunk_insert_plan_cache_update_entry demo (demo_ctx 1 4 30 40)
                   demo_slot).2)) 7 = false.
Proof.
  destruct (@update_entry_keeps_stored_handle_valid demo (demo_ctx 1 4 30 40) demo_slot
              (@chunk_insert_plan_cache_update_entry demo (demo_ctx 1 4 30 40) demo_slot).2
              {| chunk_id := 4; start_time := 10; end_time := 20;
                 move_from_copyt_plan := 8 |}
              demo_engine_wf eq_refl eq_refl)
    as (_ & _ & Hnew & Hold & _).
  refine (conj Hnew (proj1 (Hold _))). cbn. intros Heq. discriminate Heq.
Defined.

Lemma stored_start_equal_to_open_constant_drops_clause_witness :
  @where_clause demo (demo_ctx 1 4 (-1) 50) = "WHERE TRUE AND (time <= 50) ".
Proof.
  destruct (@stored_start_equal_to_open_constant_drops_clause demo
              {| CHUNK_TBL_COL_ID := 11; CHUNK_TBL_COL_PARTITION_ID := 4;
                 CHUNK_TBL_COL_STARTTIME := Some (-1);
                 CHUNK_TBL_COL_ENDTIME := Some 50 |}
              {| scan_chunk := None; scan_partition_id := 4; starttime := 0;
                 endtime := 0; timepoint := 3; should_lock := false |}
              eq_refl eq_refl)
    as (row & Hrow & _ & Hstart & Hclause).
  rewrite (Hclause (demo_ctx 1 4 (-1) 50)); [reflexivity |].
  cbn. by rewrite Hstart.
Defined.


Lemma get_chunk_cache_entry_hit_changes_nothing_witness :
  @get_chunk_cache_entry demo demo_hci (demo_epoch 1) demo_part 17 true demo_world
  = (inr {| entry_id := 4;
            entry_chunk := {| chunk_row_id := 4; chunk_row_partition_id := 4;
                              chunk_row_start_time := 10; chunk_row_end_time := 20 |};
            entry_move_from_copyt_plan := 7 |},
     demo_world).
Proof.
  refine (@get_chunk_cache_entry_hit_changes_nothing demo demo_hci (demo_epoch 1)
            demo_part 17 true demo_world
            {| chunk_row_id := 4; chunk_row_partition_id := 4;
               chunk_row_start_time := 10; chunk_row_end_time := 20 |}
            {[ 4 := demo_entry ]} demo_entry eq_refl eq_refl _ eq_refl eq_refl).
  by apply lookup_singleton_Some.
Defined.

Lemma get_chunk_cache_entry_agrees_with_table_witness :
  ∃ (t' : gmap Z chunk_insert_plan_htable_entry) (stored : chunk_insert_plan_htable_entry),
    htab demo_world = Some t' ∧ t' !! 4 = Some stored ∧ move_from_copyt_plan stored = 7.
Proof.
  destruct (@get_chunk_cache_entry_agrees_with_table demo demo_hci (demo_epoch 1)
              demo_part 17 true demo_world demo_world
              {| entry_id := 4;
                 entry_chunk := {| chunk_row_id := 4; chunk_row_partition_id := 4;
                                   chunk_row_start_time := 10;
                                   chunk_row_end_time := 20 |};
                 entry_move_from_copyt_plan := 7 |})
    as (_ & _ & Htable).
  - vm_compute. reflexivity.
  - exact Htable.
Defined.

Lemma failed_rebuild_then_invalidate_releases_twice_witness :
  ∃ w1 w2 : World,
    @get_chunk_insert_plan_cache_entry demo_rejecting demo_hci (demo_epoch 1) demo_part
      4 30 40 demo_world
    = (inl CompileError, w1)
    ∧ invalidate_chunk_cache_callback w1 = (inr tt, w2)
    ∧ released (calls (engine w2)) = [7; 7].
Proof.
  destruct (@failed_rebuild_then_invalidate_releases_twice demo_rejecting
              (demo_ctx 1 4 30 40) demo_world {[ 4 := demo_entry ]} demo_entry
              (demo_sql 30 40) eq_refl)
    as (w1 & w2 & Hfetch & _ & Hinv & Hrel & _).
  - by apply lookup_singleton_Some.
  - cbn. intros Heq. discriminate Heq.
  - reflexivity.
  - reflexivity.
  - exists w1, w2. split; [exact Hfetch |]. split; [exact Hinv |].
    rewrite Hrel. reflexivity.
Defined.

Lemma fetch_keeps_cache_ok_witness :
  cache_ok
    (@get_chunk_insert_plan_cache_entry demo demo_hci (demo_epoch 1) demo_part
       4 30 40 demo_world).2.
Proof.
  exact (proj1 (@fetch_keeps_cache_ok demo (demo_ctx 1 4 30 40) demo_world
                  (@get_chunk_insert_plan_cache_entry demo demo_hci (demo_epoch 1)
                     demo_part 4 30 40 demo_world).2
                  {| chunk_id := 4; start_time := 10; end_time := 20;
                     move_from_copyt_plan := 8 |}
                  demo_world_cache_ok eq_refl)).
Defined.

Lemma invalidate_leaves_no_valid_handle_witness :
  ∃ w' : World,
    invalidate_chunk_cache_callback demo_world = (inr tt, w')
    ∧ plan_valid (calls (engine w')) 7 = false
    ∧ 7 ∈ released (calls (engine w')).
Proof.
  destruct (invalidate_leaves_no_valid_handle demo_world demo_world_cache_ok eq_refl)
    as (w' & Hinv & Hnone & Hall & _).
  exists w'. split; [exact Hinv |]. split; [apply Hnone |].
  apply Hall. reflexivity.
Defined.

Lemma init_and_shutdown_bracket_the_handles_witness :
  cache_ok (_chunk_cache_init initial_world).2
  ∧ htab (_chunk_cache_fini demo_world).2 = None
  ∧ plan_valid (calls (engine (_chunk_cache_fini demo_world).2)) 7 = false.
Proof.
  destruct (init_and_shutdown_bracket_the_handles initial_world demo_world)
    as [Hinit Hfini].
  destruct (Hfini demo_world_cache_ok) as (_ & Hnone & _ & _ & Hvalid).
  split; [| exact (conj Hnone (Hvalid 7))].
  apply Hinit.
  - reflexivity.
  - intros c plan Hin. by apply elem_of_nil in Hin.
  - apply NoDup_nil_2.
  - intros plan. reflexivity.
Defined.

(** ** The facade called twice, and requests that differ *)

Section FacadeMore.
Context `{Externals}.

(** The chunk of the entry is always returned, and resolving it touches
    nothing but the chunk table. *)
Lemma get_chunk_cache_entry_chunk_state (part0 : Partition) (point : Z) (lock : bool)
    (w w0 : World) (r : Error + chunk_row) :
  get_chunk_cache_entry_chunk part0 point lock w = (r, w0) →
  (∃ row, r = inr row)
  ∧ htab w0 = htab w
  ∧ engine w0 = engine w
  ∧ post_invalidate_hook w0 = post_invalidate_hook w.
Proof.
  unfold get_chunk_cache_entry_chunk.
  destruct (chunk_scan _ _ _ _) as [row|].
  - intros [= <- <-]. eauto.
  - unfold chunk_row_insert_new. destruct (new_chunk_range _ _) as [st en].
    intros [= <- <-]. eauto.
Qed.

(** Once resolved, the chunk is resolved again to the same row in every
    state with the same chunk table, and nothing is created. *)
Lemma get_chunk_cache_entry_chunk_again (part0 : Partition) (point : Z) (lock : bool)
    (w w0 w2 : World) (row : chunk_row) :
  bounds_contain
    {| CHUNK_TBL_COL_ID := fresh_chunk_id (chunk_index w);
       CHUNK_TBL_COL_PARTITION_ID := part_id part0;
       CHUNK_TBL_COL_STARTTIME := (new_chunk_range (part_id part0) point).1;
       CHUNK_TBL_COL_ENDTIME := (new_chunk_range (part_id part0) point).2 |}
    point →
  get_chunk_cache_entry_chunk part0 point lock w = (inr row, w0) →
  chunk_index w2 = chunk_index w0 →
  get_chunk_cache_entry_chunk part0 point lock w2 = (inr row, w2).
Proof.
  intros Hcover. unfold get_chunk_cache_entry_chunk. rewrite !chunk_scan_first_match.
  destruct (list_find _ (List.filter _ (chunk_index w))) as [[i t0]|] eqn:Hfind; cbn.
  - intros [= <- <-] ->. by rewrite Hfind.
  - set (ti := {| CHUNK_TBL_COL_ID := fresh_chunk_id (chunk_index w);
                  CHUNK_TBL_COL_PARTITION_ID := part_id part0;
                  CHUNK_TBL_COL_STARTTIME := (new_chunk_range (part_id part0) point).1;
                  CHUNK_TBL_COL_ENDTIME := (new_chunk_range (part_id part0) point).2 |})
      in *.
    assert (Hnew : chunk_row_insert_new (part_id part0) point lock w
                   = (inr (chunk_row_of_tuple ti),
                      set_chunk_index (index_insert ti (chunk_index w)) w)).
    { unfold chunk_row_insert_new. subst ti.
      destruct (new_chunk_range (part_id part0) point) as [st en]. reflexivity. }
    rewrite Hnew. intros [= <- <-] ->. cbn [chunk_index set_chunk_index].
    apply list_find_None in Hfind. rewrite Forall_forall in Hfind.
    destruct (list_find _ _) as [[i t0]|] eqn:Hfind2; cbn.
    + apply list_find_Some in Hfind2 as (Hi & Hin & _).
      apply list_elem_of_lookup_2, partition_tuples_elem in Hi as [Hidx Hpart].
      apply index_insert_elem_iff in Hidx as [-> | Hold]; [done |].
      destruct (Hfind t0); [by apply partition_tuples_elem | done].
    + apply list_find_None in Hfind2. rewrite Forall_forall in Hfind2.
      destruct (Hfind2 ti); [| exact Hcover].
      apply partition_tuples_elem. split; [apply index_insert_elem | done].
Qed.

(** X14: with at most one partition the statement does not depend on the
    partition or on the partitioning function: two requests that agree on
    the hypertable, the chunk id and the bounds get the same statement, or
    the same failure. *)
Theorem single_partition_statement_ignores_partitioning (ctx ctx' : ChunkCacheQueryCtx) :
  num_partitions (pe_entry ctx) ≤ 1 →
  num_partitions (pe_entry ctx') ≤ 1 →
  hci ctx = hci ctx' →
  ctx_chunk_id ctx = ctx_chunk_id ctx' →
  chunk_start_time ctx = chunk_start_time ctx' →
  chunk_end_time ctx = chunk_end_time ctx' →
  get_copy_table_insert_sql ctx = get_copy_table_insert_sql ctx'.
Proof.
  intros Hn Hn' Hhci Hid Hst Hen. unfold get_copy_table_insert_sql, where_clause.
  rewrite (proj2 (Z.ltb_ge 1 (num_partitions (pe_entry ctx)))) by done.
  rewrite (proj2 (Z.ltb_ge 1 (num_partitions (pe_entry ctx')))) by done.
  by rewrite Hhci, Hid, Hst, Hen.
Qed.

(** X15: when the facade returns an entry for a chunk id the table did not
    hold, the same call made again returns the same entry and changes
    nothing: the chunk is found, not created, and its plan is a hit (given
    that the range of a new record covers the timepoint). *)
Theorem get_chunk_cache_entry_second_call_is_pure_hit
    (hci0 : hypertable_cache_entry) (pe0 : epoch_and_partitions_set) (part0 : Partition)
    (point : Z) (lock : bool) (w w1 : World)
    (t : gmap Z chunk_insert_plan_htable_entry) (entry : chunk_cache_entry) :
  bounds_contain
    {| CHUNK_TBL_COL_ID := fresh_chunk_id (chunk_index w);
       CHUNK_TBL_COL_PARTITION_ID := part_id part0;
       CHUNK_TBL_COL_STARTTIME := (new_chunk_range (part_id part0) point).1;
       CHUNK_TBL_COL_ENDTIME := (new_chunk_range (part_id part0) point).2 |}
    point →
  htab w = Some t →
  get_chunk_cache_entry hci0 pe0 part0 point lock w = (inr entry, w1) →
  t !! entry_id entry = None →
  get_chunk_cache_entry hci0 pe0 part0 point lock w1 = (inr entry, w1).
Proof.
  intros Hcover Ht. unfold get_chunk_cache_entry, mbind, M_bind.
  destruct (get_chunk_cache_entry_chunk part0 point lock w) as [[err | chunk] w0] eqn:Hchunk;
    [done |].
  destruct (get_chunk_cache_entry_chunk_state _ _ _ _ _ _ Hchunk) as (_ & Ht0 & _ & _).
  rewrite Ht in Ht0.
  unfold get_chunk_insert_plan_cache_entry.
  set (ctx := {| hci := hci0; pe_entry := pe0; part := part0;
                 ctx_chunk_id := chunk_row_id chunk;
                 chunk_start_time := chunk_row_start_time chunk;
                 chunk_end_time := chunk_row_end_time chunk |}).
  destruct (cache_fetch ctx w0) as [[err | move_plan] w1'] eqn:Hfetch; [done |].
  intros [= <- <-]. cbn [entry_id]. intros Hmiss.
  assert (Hw1 : chunk_index w1' = chunk_index w0
                ∧ htab w1' = Some (<[chunk_row_id chunk := move_plan]> t)
                ∧ start_time move_plan = chunk_row_start_time chunk
                ∧ end_time move_plan = chunk_row_end_time chunk).
  { revert Hfetch. unfold cache_fetch, chunk_insert_plan_cache_get_key.
    rewrite Ht0. cbn [ctx_chunk_id ctx]. rewrite Hmiss. rewrite create_entry_steps.
    destruct (get_copy_table_insert_sql ctx) as [err | insert_sql]; [done |].
    cbn zeta. destruct (SPI_prepare_ok insert_sql); [| done].
    by intros [= <- <-]. }
  destruct Hw1 as (Hidx & Ht1 & Hst & Hen).
  rewrite (get_chunk_cache_entry_chunk_again part0 point lock w w0 w1' chunk Hcover Hchunk Hidx).
  fold ctx.
  rewrite (cache_fetch_hit_same_bounds ctx w1' _ move_plan Ht1);
    [reflexivity | by rewrite lookup_insert_eq | exact Hst | exact Hen].
Qed.

(** X16: after a rebuild for new bounds, a request with the bounds the
    entry was first built for is a hit, and the handle it gets is the one
    compiled from the statement of the new bounds. *)
Theorem old_bounds_get_plan_of_new_bounds
    (ctx_new ctx_old : ChunkCacheQueryCtx) (s : Slot) (insert_sql : string) :
  (start_time (pe s), end_time (pe s))
  ≠ (chunk_start_time ctx_new, chunk_end_time ctx_new) →
  get_copy_table_insert_sql ctx_new = inr insert_sql →
  SPI_prepare_ok insert_sql = true →
  chunk_start_time ctx_old = start_time (pe s) →
  chunk_end_time ctx_old = end_time (pe s) →
  ∃ s1 : Slot,
    chunk_insert_plan_cache_update_entry ctx_new s = (inr (pe s1), s1)
    ∧ chunk_insert_plan_cache_update_entry ctx_old s1 = (inr (pe s1), s1)
    ∧ last (calls (slot_engine s1))
      = Some (SPI_prepare insert_sql (move_from_copyt_plan (pe s1))).
Proof.
  intros Hne Hsql Hok Hst Hen. rewrite update_entry_stale by done.
  rewrite Hsql. cbn zeta. rewrite Hok.
  exists {| pe := set_move_from_copyt_plan (next_plan (slot_engine s)) (pe s);
            slot_engine :=
              {| next_plan := next_plan (slot_engine s) + 1;
                 calls := (calls (slot_engine s)
                           ++ [SPI_freeplan (move_from_copyt_plan (pe s))])
                          ++ [SPI_prepare insert_sql (next_plan (slot_engine s))] |} |}.
  split; [reflexivity |]. split.
  - by apply update_entry_same_bounds.
  - cbn [slot_engine calls pe move_from_copyt_plan set_move_from_copyt_plan].
    apply last_snoc.
Qed.

End FacadeMore.

Lemma single_partition_statement_ignores_partitioning_witness :
  @get_copy_table_insert_sql demo (demo_ctx 1 4 10 20)
  = @get_copy_table_insert_sql demo
      {| hci := demo_hci; pe_entry := demo_epoch 0;
         part := {| part_id := 9; keyspace_start := 5; keyspace_end := 6 |};
         ctx_chunk_id := 4; chunk_start_time := 10; chunk_end_time := 20 |}.
Proof.
  refine (@single_partition_statement_ignores_partitioning demo (demo_ctx 1 4 10 20) _
            _ _ eq_refl eq_refl eq_refl eq_refl); cbn; lia.
Defined.

Lemma get_chunk_cache_entry_second_call_is_pure_hit_witness :
  (@get_chunk_cache_entry demo demo_hci (demo_epoch 1)
     {| part_id := 3; keyspace_start := 0; keyspace_end := 9 |} 250 true
     (@get_chunk_cache_entry demo demo_hci (demo_epoch 1)
        {| part_id := 3; keyspace_start := 0; keyspace_end := 9 |}
        250 true demo_world).2).1
  = inr {| entry_id := 10;
           entry_chunk := {| chunk_row_id := 10; chunk_row_partition_id := 3;
                             chunk_row_start_time := 200; chunk_row_end_time := 299 |};
           entry_move_from_copyt_plan := 8 |}.
Proof.
  rewrite (@get_chunk_cache_entry_second_call_is_pure_hit demo demo_hci (demo_epoch 1)
             {| part_id := 3; keyspace_start := 0; keyspace_end := 9 |} 250 true
             demo_world
             (@get_chunk_cache_entry demo demo_hci (demo_epoch 1)
                {| part_id := 3; keyspace_start := 0; keyspace_end := 9 |}
                250 true demo_world).2
             {[ 4 := demo_entry ]}
             {| entry_id := 10;
                entry_chunk := {| chunk_row_id := 10; chunk_row_partition_id := 3;
                                  chunk_row_start_time := 200;
                                  chunk_row_end_time := 299 |};
                entry_move_from_copyt_plan := 8 |}).
  - reflexivity.
  - vm_compute. split; intros Hgt; discriminate Hgt.
  - reflexivity.
  - vm_compute. reflexivity.
  - by apply lookup_singleton_ne.
Defined.

Lemma old_bounds_get_plan_of_new_bounds_witness :
  ∃ s1 : Slot,
    @chunk_insert_plan_cache_update_entry demo (demo_ctx 1 4 30 40) demo_slot
    = (inr (pe s1), s1)
    ∧ @chunk_insert_plan_cache_update_entry demo (demo_ctx 1 4 10 20) s1
      = (inr (pe s1), s1)
    ∧ last (calls (slot_engine s1))
      = Some (SPI_prepare (demo_sql 30 40) (move_from_copyt_plan (pe s1))).
Proof.
  exact (@old_bounds_get_plan_of_new_bounds demo (demo_ctx 1 4 30 40) (demo_ctx 1 4 10 20)
           demo_slot (demo_sql 30 40) demo_slot_stale eq_refl eq_refl eq_refl eq_refl).
Defined.
